(** * f9a/mail: templated mail messages, an SMTP transmitter and a recorder

    A shallow embedding of the Go package [mail] (message.go, the
    transmitter file, mail_recorder.go) and the properties of its
    specification.

    Conventions of the embedding.
    - A Go [string] is a [string] (a sequence of bytes), a [[]byte] is a
      [list byte], an [int] is a [Z].
    - A Go [error] is the text its [Error()] method yields; [nil] is [None].
    - [map[string]struct{}] is a [gset string].  A map that the code shares
      between two values and writes in place (the function table of a
      template) lives in a store and is held by location.
    - A function with side effects takes the state it acts on and returns
      the new one.  A run-time panic is an outcome of its own. *)

From Stdlib Require Import ZArith Lia List Ascii Strings.Byte DecimalString.
From stdpp Require Import base tactics option list strings gmap sets.

Local Open Scope string_scope.
Local Open Scope Z_scope.
Local Open Scope list_scope.

(** ** Common vocabulary *)

(** The text of a Go [error]. *)
Definition error : Type := string.

(** How a Go function call ends: it returns a value, or it panics. *)
Inductive outcome (A : Type) : Type :=
| Returns (a : A)
| Panics.
Arguments Returns {A} a.
Arguments Panics {A}.

(** [bytes.Equal]: same length and the same bytes. *)
Fixpoint bytes_Equal (a b : list byte) : bool :=
  match a, b with
  | [], [] => true
  | x :: a', y :: b' => Byte.eqb x y && bytes_Equal a' b'
  | _, _ => false
  end.

(** ** message.go: the data model *)

Module Attachment.
Record t : Type := mk { Name : string; Kind : string; Content : list byte }.
End Attachment.

Module Message.
Record t : Type := mk {
  Topic : string;
  Body : string;
  Attachments : list Attachment.t;
  ContentType : string }.
(** The zero value, which a named result [msg Message] starts from. *)
Definition zero : t := mk "" "" [] "".
End Message.

Module RequestAttachment.
Record t : Type := mk { Name : string; Content : list byte }.
End RequestAttachment.

(** [type RequestAttachments []RequestAttachment] *)
Definition RequestAttachments : Type := list RequestAttachment.t.

(** ** message.go: processAttachments *)

(** [http.DetectContentType]: the content-sniffing capability, which given
    raw bytes returns a MIME type. *)
Class Sniffer : Type := DetectContentType : list byte -> string.

(** [fmt.Errorf("MIME Type %v is not allowed", mimeType)] *)
Definition errNotAllowed (mimeType : string) : error :=
  "MIME Type " +:+ mimeType +:+ " is not allowed".

(** The [Attachment] literal that the loop of [processAttachments] appends. *)
Definition stamp `{Sniffer} (attachment : RequestAttachment.t) : Attachment.t :=
  {| Attachment.Name := RequestAttachment.Name attachment;
     Attachment.Kind := DetectContentType (RequestAttachment.Content attachment);
     Attachment.Content := RequestAttachment.Content attachment |}.

(** The [for ... range attachments] loop, with [aa] the slice built so far.
    It returns the pair of named results [(aa, err)].  A lookup in a [nil]
    map answers as one in an empty map, so the allow-list is a set. *)
Fixpoint processAttachments_from `{Sniffer} (allowed : gset string)
    (attachments : RequestAttachments) (aa : list Attachment.t)
  : list Attachment.t * option error :=
  match attachments with
  | [] => (aa, None)
  | attachment :: rest =>
      let mimeType := DetectContentType (RequestAttachment.Content attachment) in
      if decide (mimeType ∈ allowed)
      then processAttachments_from allowed rest (aa ++ [stamp attachment])
      else (aa, Some (errNotAllowed mimeType))
  end.

Definition processAttachments `{Sniffer} (allowed : gset string)
    (attachments : RequestAttachments) : list Attachment.t * option error :=
  processAttachments_from allowed attachments [].

(** The sniffed type of an attachment is on the allow-list. *)
Definition permitted `{Sniffer} (allowed : gset string)
    (a : RequestAttachment.t) : Prop :=
  DetectContentType (RequestAttachment.Content a) ∈ allowed.

#[global] Instance permitted_dec `{Sniffer} allowed a :
  Decision (permitted allowed a).
Proof. unfold permitted. apply _. Defined.

(** ** Package time, as far as message.go uses it

    A [time.Time] is modelled by what its accessors report in its own
    location: the civil date and clock ([Year], [Month], [Day], [Hour],
    [Minute], [Second]), the nanoseconds within the second, and the zone
    with its abbreviation and its offset east of UTC in seconds (as
    [t.Zone()] gives them).  The weekday is a function of the date. *)

Inductive Month : Type :=
| January | February | March | April | May | June
| July | August | September | October | November | December.

Inductive Weekday : Type :=
| Sunday | Monday | Tuesday | Wednesday | Thursday | Friday | Saturday.

Module Time.
Record t : Type := mk {
  Year : Z; Month : Month; Day : Z; Hour : Z; Minute : Z; Second : Z;
  Nanosecond : Z; Zone : string; Offset : Z }.
End Time.

(** [int(m)] of a [time.Month]: January is 1. *)
Definition month_number (m : Month) : Z :=
  match m with
  | January => 1 | February => 2 | March => 3 | April => 4
  | May => 5 | June => 6 | July => 7 | August => 8
  | September => 9 | October => 10 | November => 11 | December => 12
  end.

(** Days from 1970-01-01 to the civil date [y]-[m]-[d] of the proleptic
    Gregorian calendar (years counted from March, in eras of 400 years). *)
Definition days_from_civil (y m d : Z) : Z :=
  let y' := if m <=? 2 then y - 1 else y in
  let era := y' / 400 in
  let yoe := y' - era * 400 in
  let mp := (m + 9) mod 12 in
  let doy := (153 * mp + 2) / 5 + d - 1 in
  let doe := yoe * 365 + yoe / 4 - yoe / 100 + doy in
  era * 146097 + doe - 719468.

Definition weekday_of_number (n : Z) : Weekday :=
  match n with
  | 0 => Sunday | 1 => Monday | 2 => Tuesday | 3 => Wednesday
  | 4 => Thursday | 5 => Friday | _ => Saturday
  end.

(** [t.Weekday()]: 1970-01-01 was a Thursday. *)
Definition Time_Weekday (t : Time.t) : Weekday :=
  weekday_of_number
    ((days_from_civil (Time.Year t) (month_number (Time.Month t)) (Time.Day t)
      + 4) mod 7).

(** [strconv.Itoa]: the decimal digits, with a minus sign below zero. *)
Definition itoa (n : Z) : string :=
  DecimalString.NilZero.string_of_int (Z.to_int n).

(** Zero padding to a width: what [%02d] of [fmt] does for width 2 and
    what [appendInt] of package time does (the sign counts for neither). *)
Fixpoint zeros (n : nat) : string :=
  match n with O => "" | S n' => "0" +:+ zeros n' end.

(** [fmt.Sprintf("%02d", n)]: at least two characters, sign included. *)
Definition sprintf_02d (n : Z) : string :=
  let s := itoa n in zeros (2 - String.length s) +:+ s.

(** [appendInt(b, x, width)] of package time: the digits of |x| padded with
    zeros to [width], after a minus sign when [x] is negative. *)
Definition appendInt (x : Z) (width : nat) : string :=
  let s := itoa (Z.abs x) in
  (if x <? 0 then "-" else "") +:+ zeros (width - String.length s) +:+ s.

(** English names, as [Month.String] and [Weekday.String] give them. *)
Definition Month_String (m : Month) : string :=
  match m with
  | January => "January" | February => "February" | March => "March"
  | April => "April" | May => "May" | June => "June" | July => "July"
  | August => "August" | September => "September" | October => "October"
  | November => "November" | December => "December"
  end.

Definition Weekday_String (d : Weekday) : string :=
  match d with
  | Sunday => "Sunday" | Monday => "Monday" | Tuesday => "Tuesday"
  | Wednesday => "Wednesday" | Thursday => "Thursday" | Friday => "Friday"
  | Saturday => "Saturday"
  end.

(** The elements of a layout that read the date and the clock. *)
Inductive stdChunk : Type :=
| stdLongMonth | stdMonth | stdNumMonth | stdZeroMonth
| stdLongWeekDay | stdWeekDay
| stdDay | stdUnderDay | stdZeroDay
| stdHour | stdHour12 | stdZeroHour12
| stdMinute | stdZeroMinute | stdSecond | stdZeroSecond
| stdLongYear | stdYear | stdPM | stdpm.

Definition startsWithLowerCase (s : string) : bool :=
  match s with
  | EmptyString => false
  | String c _ => (97 <=? Z.of_nat (nat_of_ascii c)) && (Z.of_nat (nat_of_ascii c) <=? 122)
  end.

Definition has_prefix (p s : string) : bool := String.prefix p s.

Definition after (n : nat) (s : string) : string :=
  String.substring n (String.length s - n) s.

(** The layout element that starts the string [s], with its length: the
    cases of [nextStdChunk] for the date and the clock, tried in its order.
    The elements of the zone, of the fraction of a second and of the day of
    the year are not among them: see [beyond] below. *)
Definition stdChunk_at (s : string) : option (stdChunk * nat) :=
  if has_prefix "January" s then Some (stdLongMonth, 7%nat)
  else if has_prefix "Jan" s && negb (startsWithLowerCase (after 3 s))
       then Some (stdMonth, 3%nat)
  else if has_prefix "Monday" s then Some (stdLongWeekDay, 6%nat)
  else if has_prefix "Mon" s && negb (startsWithLowerCase (after 3 s))
       then Some (stdWeekDay, 3%nat)
  else if has_prefix "01" s then Some (stdZeroMonth, 2%nat)
  else if has_prefix "02" s then Some (stdZeroDay, 2%nat)
  else if has_prefix "03" s then Some (stdZeroHour12, 2%nat)
  else if has_prefix "04" s then Some (stdZeroMinute, 2%nat)
  else if has_prefix "05" s then Some (stdZeroSecond, 2%nat)
  else if has_prefix "06" s then Some (stdYear, 2%nat)
  else if has_prefix "15" s then Some (stdHour, 2%nat)
  else if has_prefix "1" s then Some (stdNumMonth, 1%nat)
  else if has_prefix "2006" s then Some (stdLongYear, 4%nat)
  else if has_prefix "2" s then Some (stdDay, 1%nat)
  else if has_prefix "_2" s && negb (has_prefix "_2006" s)
       then Some (stdUnderDay, 2%nat)
  else if has_prefix "3" s then Some (stdHour12, 1%nat)
  else if has_prefix "4" s then Some (stdMinute, 1%nat)
  else if has_prefix "5" s then Some (stdSecond, 1%nat)
  else if has_prefix "PM" s then Some (stdPM, 2%nat)
  else if has_prefix "pm" s then Some (stdpm, 2%nat)
  else None.

(** The text [AppendFormat] writes for one element. *)
Definition format_chunk (t : Time.t) (c : stdChunk) : string :=
  let hr12 := if Time.Hour t mod 12 =? 0 then 12 else Time.Hour t mod 12 in
  match c with
  | stdLongMonth => Month_String (Time.Month t)
  | stdMonth => String.substring 0 3 (Month_String (Time.Month t))
  | stdNumMonth => appendInt (month_number (Time.Month t)) 0
  | stdZeroMonth => appendInt (month_number (Time.Month t)) 2
  | stdLongWeekDay => Weekday_String (Time_Weekday t)
  | stdWeekDay => String.substring 0 3 (Weekday_String (Time_Weekday t))
  | stdDay => appendInt (Time.Day t) 0
  | stdUnderDay =>
      (if Time.Day t <? 10 then " " else "") +:+ appendInt (Time.Day t) 0
  | stdZeroDay => appendInt (Time.Day t) 2
  | stdHour => appendInt (Time.Hour t) 2
  | stdHour12 => appendInt hr12 0
  | stdZeroHour12 => appendInt hr12 2
  | stdMinute => appendInt (Time.Minute t) 0
  | stdZeroMinute => appendInt (Time.Minute t) 2
  | stdSecond => appendInt (Time.Second t) 0
  | stdZeroSecond => appendInt (Time.Second t) 2
  | stdLongYear => appendInt (Time.Year t) 4
  | stdYear => appendInt (Z.abs (Time.Year t) mod 100) 2
  | stdPM => if 12 <=? Time.Hour t then "PM" else "AM"
  | stdpm => if 12 <=? Time.Hour t then "pm" else "am"
  end.

(** The scan of the layout: [skip] counts the bytes of an element already
    written that are still to be passed over. *)
Fixpoint Format_from (t : Time.t) (skip : nat) (layout : string) : string :=
  match layout with
  | EmptyString => ""
  | String c rest =>
      match skip with
      | S k => Format_from t k rest
      | O =>
          match stdChunk_at layout with
          | Some (chunk, n) => format_chunk t chunk +:+ Format_from t (n - 1) rest
          | None => String c (Format_from t 0 rest)
          end
      end
  end.

(** The layouts that the scan above does not cover are those in which
    one of the other elements of [nextStdChunk] starts somewhere: "MST";
    the numeric zones, which all start with "Z07" or "-07"; the fraction of
    a second, a point or a comma before a run of 0s or of 9s that no digit
    follows; and the day of the year, "002" or "__2". *)
Fixpoint after_run (ch : ascii) (s : string) : string :=
  match s with
  | String c rest => if Ascii.eqb c ch then after_run ch rest else s
  | EmptyString => EmptyString
  end.

Definition starts_with_digit (s : string) : bool :=
  match s with
  | EmptyString => false
  | String c _ => (48 <=? Z.of_nat (nat_of_ascii c)) && (Z.of_nat (nat_of_ascii c) <=? 57)
  end.

Definition fraction_at (s : string) : bool :=
  match s with
  | String p (String ch rest) =>
      (Ascii.eqb p "." || Ascii.eqb p ",")
      && (Ascii.eqb ch "0" || Ascii.eqb ch "9")
      && negb (starts_with_digit (after_run ch rest))
  | _ => false
  end.

Definition beyond_at (s : string) : bool :=
  has_prefix "MST" s || has_prefix "Z07" s || has_prefix "-07" s
  || fraction_at s || has_prefix "002" s || has_prefix "__2" s.

Fixpoint beyond (layout : string) : bool :=
  match layout with
  | EmptyString => false
  | String _ rest => beyond_at layout || beyond rest
  end.

(** What [t.Format(layout)] gives for a layout that is [beyond] the scan:
    the capability of package time, taken as it is. *)
Class TimeLayouts : Type := Format_beyond : Time.t -> string -> string.

(** [t.Format(layout)]: computed by the scan for the layouts made of date
    and clock elements and literal text, and left to package time for the
    others. *)
Definition Time_Format `{TimeLayouts} (t : Time.t) (layout : string) : string :=
  if beyond layout then Format_beyond t layout else Format_from t 0 layout.

(** ** message.go: timef and the German names *)

(** [var days = map[time.Weekday]string{...}]: every weekday is a key. *)
Definition days (d : Weekday) : string :=
  match d with
  | Monday => "Montag" | Tuesday => "Dienstag" | Wednesday => "Mittwoch"
  | Thursday => "Donnerstag" | Friday => "Freitag" | Saturday => "Samstag"
  | Sunday => "Sonntag"
  end.

(** [var months = map[time.Month]string{...}]: every month is a key.  The
    bytes of the name of March are those of the source file. *)
Definition months (m : Month) : string :=
  match m with
  | January => "Januar" | February => "Februar" | March => "MÃ¤rz"
  | April => "April" | May => "Mai" | June => "Juni" | July => "Juli"
  | August => "August" | September => "September" | October => "Oktober"
  | November => "November" | December => "Dezember"
  end.

(** [fmt.Sprintf("%s, %02d. %s %d", day[:2], t.Day(), month, t.Year())] *)
Definition longDateGerman (t : Time.t) : string :=
  let day := days (Time_Weekday t) in
  let month := months (Time.Month t) in
  String.substring 0 2 day +:+ ", " +:+ sprintf_02d (Time.Day t) +:+ ". "
  +:+ month +:+ " " +:+ itoa (Time.Year t).

(** [fmt.Sprintf("%s %02d:%02d:%02d", longDateGerman(t), ...)] *)
Definition longTimeGerman (t : Time.t) : string :=
  longDateGerman t +:+ " " +:+ sprintf_02d (Time.Hour t) +:+ ":"
  +:+ sprintf_02d (Time.Minute t) +:+ ":" +:+ sprintf_02d (Time.Second t).

Definition timef `{TimeLayouts} (t : Time.t) (format : string) : string :=
  if decide (format = "date-short-de") then Time_Format t "02.01.2006"
  else if decide (format = "date-long-de") then longDateGerman t
  else if decide (format = "time-short-de") then Time_Format t "02.01.2006 15:04:05"
  else if decide (format = "time-long-de") then longTimeGerman t
  else Time_Format t format.

(** ** message.go: templates and their options *)

(** Package html/template: the rendering capability.  [Parse name funcs src]
    stands for [template.New(name).Funcs(funcs).Parse(src)]: [Funcs] copies
    the entries of [funcs] into the program, and panics when a name of
    [funcs] is no identifier or a value is no function that a template can
    call; [Parse] returns the program or a syntax error.  [Run p data]
    stands for [p.Execute(&buf, data)] followed by [buf.String()]. *)
Class TemplateEngine : Type := {
  Data : Type;
  Func : Type;
  Program : Type;
  Parse : string -> gmap string Func -> string -> outcome (Program + error);
  Run : Program -> Data -> string + error;
  (** a [func(time.Time, string) string] as a value of a [FuncMap] *)
  funcOf : (Time.t -> string -> string) -> Func }.

(** A [template.FuncMap] is a Go map: a reference to a table that every copy
    of the reference shares.  The tables live in a store. *)
Definition loc : Type := positive.
Abbreviation Store := (gmap loc (gmap string Func)).

Module Template.
Record t `{TemplateEngine} : Type := mk {
  topic : option Program;             (* nil until parsed *)
  body : option Program;
  allowedAttachmentTypes : gset string;
  funcs : option loc;                 (* nil in the zero value *)
  contentType : string;
  attachments : RequestAttachments }.
Arguments mk {_} _ _ _ _ _ _.
End Template.

(** [type Option func( *Template)]: it acts on the template it is handed
    and on the tables that template refers to. *)
Definition Option `{TemplateEngine} : Type :=
  Template.t -> Store -> outcome (Template.t * Store).

Definition makeAllowedAttachmentTypesIdx (types : list string) : gset string :=
  fold_left (fun idx t => {[ t ]} ∪ idx) types ∅.

Definition WithAttachments `{TemplateEngine}
    (attachments : RequestAttachments) : Option :=
  fun tpl σ =>
    Returns ({| Template.topic := Template.topic tpl;
                Template.body := Template.body tpl;
                Template.allowedAttachmentTypes :=
                  Template.allowedAttachmentTypes tpl;
                Template.funcs := Template.funcs tpl;
                Template.contentType := Template.contentType tpl;
                Template.attachments := attachments |}, σ).

Definition AllowAttachments `{TemplateEngine} (types : list string) : Option :=
  fun opts σ =>
    Returns ({| Template.topic := Template.topic opts;
                Template.body := Template.body opts;
                Template.allowedAttachmentTypes :=
                  makeAllowedAttachmentTypesIdx types;
                Template.funcs := Template.funcs opts;
                Template.contentType := Template.contentType opts;
                Template.attachments := Template.attachments opts |}, σ).

Definition ContentType `{TemplateEngine} (kind : string) : Option :=
  fun opts σ =>
    Returns ({| Template.topic := Template.topic opts;
                Template.body := Template.body opts;
                Template.allowedAttachmentTypes :=
                  Template.allowedAttachmentTypes opts;
                Template.funcs := Template.funcs opts;
                Template.contentType := kind;
                Template.attachments := Template.attachments opts |}, σ).

(** [for k, fun := range funcs { opts.funcs[k] = fun }]: the writes go into
    the table [opts.funcs] refers to.  A write into a [nil] map panics; with
    nothing to range over there is no write. *)
Definition TemplateFuncs `{TemplateEngine} (funcs : gmap string Func) : Option :=
  fun opts σ =>
    if decide (funcs = ∅) then Returns (opts, σ)
    else match Template.funcs opts with
         | None => Panics
         | Some l =>
             Returns (opts,
                      alter (fun table =>
                               map_fold (fun k f acc => <[k := f]> acc) table funcs)
                            l σ)
         end.

(** [for _, opt := range opts { opt(&tpl) }] *)
Fixpoint applyOptions `{TemplateEngine} (opts : list Option)
    (tpl : Template.t) (σ : Store) : outcome (Template.t * Store) :=
  match opts with
  | [] => Returns (tpl, σ)
  | opt :: rest =>
      match opt tpl σ with
      | Returns (tpl', σ') => applyOptions rest tpl' σ'
      | Panics => Panics
      end
  end.

(** [executeTemplate]: the named results [(s, err)].  Executing a [nil]
    template panics. *)
Definition executeTemplate `{TemplateEngine} (tpl : option Program) (data : Data)
  : outcome (string * option error) :=
  match tpl with
  | None => Panics
  | Some p =>
      match Run p data with
      | inr err => Returns ("", Some err)
      | inl s => Returns (s, None)
      end
  end.

(** [func (tpl Template) Execute(data, opts...) (msg Message, err error)].
    The receiver is passed by value: [tpl] is the callee's copy of the
    caller's struct, and the store is what the two still share. *)
Definition Execute `{TemplateEngine} `{Sniffer} (tpl : Template.t) (data : Data)
    (opts : list Option) (σ : Store)
  : outcome ((Message.t * option error) * Store) :=
  match applyOptions opts tpl σ with
  | Panics => Panics
  | Returns (tpl, σ) =>
      match executeTemplate (Template.topic tpl) data with
      | Panics => Panics
      | Returns (_, Some err) => Returns ((Message.zero, Some err), σ)
      | Returns (topic, None) =>
          match executeTemplate (Template.body tpl) data with
          | Panics => Panics
          | Returns (_, Some err) =>
              Returns ((Message.mk topic "" [] "", Some err), σ)
          | Returns (body, None) =>
              match processAttachments (Template.allowedAttachmentTypes tpl)
                      (Template.attachments tpl) with
              | (_, Some err) =>
                  Returns ((Message.mk topic body [] "",
                            Some ("wrong attachment: " +:+ err)), σ)
              | (messageAttachments, None) =>
                  Returns ((Message.mk topic body messageAttachments
                              (Template.contentType tpl), None), σ)
              end
          end
      end
  end.

(** The table a template refers to, as [Funcs(tpl.funcs)] reads it. *)
Definition funcs_of `{TemplateEngine} (tpl : Template.t) (σ : Store)
  : gmap string Func :=
  default ∅ (Template.funcs tpl ≫= fun l => σ !! l).

(** [NewTemplate]: the function table is a fresh map holding [timef]. *)
Definition NewTemplate `{TemplateEngine} `{TimeLayouts} (topic body : string)
    (options : list Option) (σ : Store)
  : outcome ((Template.t * option error) * Store) :=
  let l := fresh (dom σ) in
  let σ := <[l := {[ "timef" := funcOf timef ]}]> σ in
  let tpl := Template.mk None None ∅ (Some l) "text/plain" [] in
  match applyOptions options tpl σ with
  | Panics => Panics
  | Returns (tpl, σ) =>
      let with_programs t b :=
        Template.mk t b (Template.allowedAttachmentTypes tpl)
          (Template.funcs tpl) (Template.contentType tpl)
          (Template.attachments tpl) in
      match Parse "subject" (funcs_of tpl σ) topic with
      | Panics => Panics
      | Returns (inr err) => Returns ((with_programs None None, Some err), σ)
      | Returns (inl t) =>
          match Parse "body" (funcs_of tpl σ) body with
          | Panics => Panics
          | Returns (inr err) =>
              Returns ((with_programs (Some t) None, Some err), σ)
          | Returns (inl b) =>
              Returns ((with_programs (Some t) (Some b), None), σ)
          end
      end
  end.

(** The options that assign a field of the template they are handed, and
    write into no table. *)
Inductive assigns_field `{TemplateEngine} : Option -> Prop :=
| assigns_attachments (attachments : RequestAttachments) :
    assigns_field (WithAttachments attachments)
| assigns_allowed (types : list string) :
    assigns_field (AllowAttachments types)
| assigns_contentType (kind : string) :
    assigns_field (ContentType kind).

(** ** The transmitter file: configuration and its validation *)

Module TxConfig.
Record t : Type := mk {
  User : string; Password : string; Host : string; Port : Z; TmpDir : string }.
End TxConfig.

(** Package ozzo-validation v4 (imported as [oz]), as far as [Validate]
    uses it, after the package's documentation.  A rule sees the value of a
    field.  [Required] "checks if a value is not empty", where empty is the
    zero value of the field's type: the string of length 0 for a string, 0
    for an integer.  The threshold rules [Min] and [Max] let an empty value
    pass and compare any other.  [Field] lists the rules of one field, and
    the check of a field stops at its first failing rule; [ValidateStruct]
    gathers the failures by field name (the json tag). *)
Module oz.

Inductive value : Type :=
| OfString (s : string)
| OfInt (n : Z).

Definition IsEmpty (v : value) : bool :=
  match v with
  | OfString s => bool_decide (String.length s = 0%nat)
  | OfInt n => n =? 0
  end.

Definition Rule : Type := value -> option error.

Definition Required : Rule :=
  fun v => if IsEmpty v then Some "cannot be blank" else None.

Definition Min (threshold : Z) : Rule :=
  fun v =>
    if IsEmpty v then None
    else match v with
         | OfInt n =>
             if threshold <=? n then None
             else Some ("must be no less than " +:+ itoa threshold)
         | OfString s => Some ("cannot convert " +:+ s +:+ " to int64")
         end.

Definition Max (threshold : Z) : Rule :=
  fun v =>
    if IsEmpty v then None
    else match v with
         | OfInt n =>
             if n <=? threshold then None
             else Some ("must be no greater than " +:+ itoa threshold)
         | OfString s => Some ("cannot convert " +:+ s +:+ " to int64")
         end.

Record FieldRules : Type := Field {
  field_name : string; field_value : value; field_rules : list Rule }.

(** [Validate(value, rules...)]: the error of the first rule that fails. *)
Fixpoint Validate (v : value) (rules : list Rule) : option error :=
  match rules with
  | [] => None
  | rule :: rest =>
      match rule v with
      | Some err => Some err
      | None => Validate v rest
      end
  end.

(** The [Errors] value: field name to message. *)
Definition Errors : Type := gmap string error.

Fixpoint ValidateStruct_from (fields : list FieldRules) (errs : Errors) : Errors :=
  match fields with
  | [] => errs
  | f :: rest =>
      match Validate (field_value f) (field_rules f) with
      | Some err => ValidateStruct_from rest (<[field_name f := err]> errs)
      | None => ValidateStruct_from rest errs
      end
  end.

(** [nil] when no field failed. *)
Definition ValidateStruct (fields : list FieldRules) : option Errors :=
  let errs := ValidateStruct_from fields ∅ in
  if decide (errs = ∅) then None else Some errs.

End oz.

Definition TxConfig_Validate (cfg : TxConfig.t) : option oz.Errors :=
  oz.ValidateStruct
    [ oz.Field "user" (oz.OfString (TxConfig.User cfg)) [oz.Required];
      oz.Field "password" (oz.OfString (TxConfig.Password cfg)) [oz.Required];
      oz.Field "host" (oz.OfString (TxConfig.Host cfg)) [oz.Required];
      oz.Field "port" (oz.OfInt (TxConfig.Port cfg))
        [oz.Required; oz.Min 0; oz.Max 49151] ].

(** ** The transmitter file: the transmitter *)

(** [*mail.Dialer] of gopkg.in/mail.v2, as [mail.NewDialer] fills it. *)
Module Dialer.
Record t : Type := mk {
  Host : string; Port : Z; Username : string; Password : string; SSL : bool }.
End Dialer.

Definition NewDialer (host : string) (port : Z) (username password : string)
  : Dialer.t :=
  Dialer.mk host port username password (port =? 465).

(** [type Tx struct { dialer atomic.Value; cfg atomic.Value }]: each slot
    holds nothing or the one kind of value the package stores in it. *)
Module Tx.
Record t : Type := mk { dialer : option Dialer.t; cfg : option TxConfig.t }.
End Tx.

(** [type To []string] *)
Definition To : Type := list string.

Module sendOptions.
Record t : Type := mk { asCc : bool }.
End sendOptions.

(** [SendOption]: its [apply] method, acting on the options. *)
Definition SendOption : Type := sendOptions.t -> sendOptions.t.

Definition AsCc : SendOption := fun o => sendOptions.mk true.

(** [*mail.Message] of gopkg.in/mail.v2: headers, body parts, and the
    paths of the files attached. *)
Module GoMessage.
Record t : Type := mk {
  header : gmap string (list string);
  parts : list (string * string);
  attachments : list string }.
Definition NewMessage : t := mk ∅ [] [].
Definition SetHeader (field : string) (values : list string) (m : t) : t :=
  mk (<[field := values]> (header m)) (parts m) (attachments m).
Definition SetBody (contentType body : string) (m : t) : t :=
  mk (header m) [(contentType, body)] (attachments m).
Definition Attach (filename : string) (m : t) : t :=
  mk (header m) (parts m) (attachments m ++ [filename]).
End GoMessage.

(** The filesystem and MIME-table capabilities, over the state [World] of
    the machine: [ioutil.TempDir], [ioutil.WriteFile] (mode 0700),
    [os.RemoveAll], [mime.ExtensionsByType] (a [nil] or a non-[nil] slice,
    and an error), [filepath.Join]. *)
Class OS (World : Type) : Type := {
  TempDir : string -> string -> World -> (string + error) * World;
  WriteFile : string -> list byte -> World -> option error * World;
  RemoveAll : string -> World -> option error * World;
  ExtensionsByType : string -> option (list string) * option error;
  filepath_Join : string -> string -> string }.

(** The SMTP capability [dialer.DialAndSend(m)]. *)
Class Transport (World : Type) : Type :=
  DialAndSend : Dialer.t -> GoMessage.t -> World -> option error * World.

(** [writeFile]: the named results [(filename, err)]. *)
Definition writeFile {World} `{OS World} (tempDirName : string)
    (a : Attachment.t) (w : World)
  : outcome (string * option error) * World :=
  match ExtensionsByType (Attachment.Kind a) with
  | (_, Some err) =>
      (Returns ("", Some ("Couldn't find extension for mime-type: " +:+ err)), w)
  | (ee, None) =>
      let ext :=
        match ee with
        | None => Returns "unknown"
        | Some (e0 :: _) => Returns e0
        | Some [] => Panics                (* ee[0] of an empty slice *)
        end in
      match ext with
      | Panics => (Panics, w)
      | Returns ext =>
          let filename :=
            filepath_Join tempDirName (Attachment.Name a +:+ ext) in
          match WriteFile filename (Attachment.Content a) w with
          | (Some err, w) =>
              (Returns (filename,
                        Some ("Couldn't write attachment to tmp-dir: " +:+ err)),
               w)
          | (None, w) => (Returns (filename, None), w)
          end
      end
  end.

(** The loop over [message.Attachments]: it leaves the function with
    [return err] ([inr]), or runs to its end with the message built
    ([inl]). *)
Fixpoint Send_attachments {World} `{OS World} (tempDirName : string)
    (attachments : list Attachment.t) (m : GoMessage.t) (w : World)
  : outcome (GoMessage.t + error) * World :=
  match attachments with
  | [] => (Returns (inl m), w)
  | a :: rest =>
      match writeFile tempDirName a w with
      | (Panics, w) => (Panics, w)
      | (Returns (_, Some err), w) => (Returns (inr err), w)
      | (Returns (filename, None), w) =>
          Send_attachments tempDirName rest (GoMessage.Attach filename m) w
      end
  end.

(** The headers and the body that [Send] sets before it touches the disk. *)
Definition Send_compose (from to0 : string) (more : list string)
    (message : Message.t) (opts : sendOptions.t) : GoMessage.t :=
  let m := GoMessage.NewMessage in
  let m := GoMessage.SetHeader "From" [from] m in
  let m := GoMessage.SetHeader "To" [to0] m in
  let m :=
    if decide (1 < length (to0 :: more))%nat
    then if sendOptions.asCc opts
         then GoMessage.SetHeader "Cc" more m
         else GoMessage.SetHeader "Bcc" more m
    else m in
  let m := GoMessage.SetHeader "Subject" [Message.Topic message] m in
  GoMessage.SetBody (Message.ContentType message) (Message.Body message) m.

(** What [Send] does between the [defer] and the deferred call: the value
    is the one the result [err] holds when the function body is left. *)
Definition Send_body {World} `{OS World} `{Transport World} (tx : Tx.t)
    (tempDirName : string) (message : Message.t) (m : GoMessage.t) (w : World)
  : outcome (option error) * World :=
  match Send_attachments tempDirName (Message.Attachments message) m w with
  | (Panics, w) => (Panics, w)
  | (Returns (inr err), w) => (Returns (Some err), w)
  | (Returns (inl m), w) =>
      match Tx.dialer tx with
      | None => (Returns (Some "transmitter is not configured, yet"), w)
      | Some dialer =>
          let '(err, w) := DialAndSend dialer m w in
          (Returns err, w)
      end
  end.

(** [func (tx *Tx) Send(from, to, message, options...) (err error)].  The
    deferred function [func() { err = os.RemoveAll(tempDirName) }] runs when
    the body is left, by a return or by a panic, and assigns to the result. *)
Definition Send {World} `{OS World} `{Transport World} (tx : Tx.t)
    (from : string) (to : To) (message : Message.t) (options : list SendOption)
    (w : World) : outcome (option error) * World :=
  if decide (from = "") then (Returns (Some "from cannot be empty"), w)
  else match to with
  | [] => (Returns (Some "at least one 'to' email-address must be given"), w)
  | to0 :: more =>
      let opts := fold_left (fun o opt => opt o) options (sendOptions.mk false) in
      match Tx.cfg tx with
      | None => (Returns (Some "transmitter is not configured, yet"), w)
      | Some cfg =>
          let m := Send_compose from to0 more message opts in
          match TempDir (TxConfig.TmpDir cfg) "f9a-mail" w with
          | (inr err, w) =>
              (Returns
                 (Some ("couldn't create tmp-dir for attachments: " +:+ err)), w)
          | (inl tempDirName, w) =>
              let '(exit, w) := Send_body tx tempDirName message m w in
              let '(err, w) := RemoveAll tempDirName w in
              (match exit with
               | Returns _ => Returns err
               | Panics => Panics
               end, w)
          end
      end
  end.

(** [UpdateTxConfig]: two stores, the config and then the dialer. *)
Definition UpdateTxConfig (cfg : TxConfig.t) (tx : Tx.t) : Tx.t :=
  let tx := Tx.mk (Tx.dialer tx) (Some cfg) in
  Tx.mk (Some (NewDialer (TxConfig.Host cfg) (TxConfig.Port cfg)
                 (TxConfig.User cfg) (TxConfig.Password cfg)))
        (Tx.cfg tx).

(** [New]: nothing stored yet. *)
Definition New : Tx.t := Tx.mk None None.

(** [Dial]: the named results [(tx, err)]. *)
Definition Dial (cfg : TxConfig.t) : Tx.t * option oz.Errors :=
  let tx := Tx.mk None None in
  match TxConfig_Validate cfg with
  | Some err => (tx, Some err)
  | None =>
      let tx := Tx.mk (Tx.dialer tx) (Some cfg) in
      (Tx.mk (Some (NewDialer (TxConfig.Host cfg) (TxConfig.Port cfg)
                      (TxConfig.User cfg) (TxConfig.Password cfg)))
             (Tx.cfg tx), None)
  end.

(** ** The transmitter under concurrent use

    The two slots of a [Tx] are [atomic.Value]s: each load and each store
    is one atomic step, and the steps of the goroutines of a run are
    interleaved.  A call of [UpdateTxConfig] is two stores; a call of
    [Send] is a load of the config, work on what it loaded (the message,
    the temporary directory, the attachments), and a load of the dialer. *)

(** The dialer that [UpdateTxConfig] and [Dial] derive from a config. *)
Definition dialer_of (cfg : TxConfig.t) : Dialer.t :=
  NewDialer (TxConfig.Host cfg) (TxConfig.Port cfg) (TxConfig.User cfg)
    (TxConfig.Password cfg).

Inductive store : Type :=
| StoreCfg (cfg : TxConfig.t)       (* tx.cfg.Store(cfg) *)
| StoreDialer (dialer : Dialer.t).  (* tx.dialer.Store(...) *)

Definition do_store (s : store) (tx : Tx.t) : Tx.t :=
  match s with
  | StoreCfg cfg => Tx.mk (Tx.dialer tx) (Some cfg)
  | StoreDialer dialer => Tx.mk (Some dialer) (Tx.cfg tx)
  end.

(** The stores of one call of [UpdateTxConfig], in program order. *)
Definition UpdateTxConfig_stores (cfg : TxConfig.t) : list store :=
  [StoreCfg cfg; StoreDialer (dialer_of cfg)].

(** Where a call of [Send] stands with respect to the two slots. *)
Inductive sender : Type :=
| BeforeCfgLoad                                 (* up to [tx.cfg.Load()] *)
| BeforeDialerLoad (cfg : TxConfig.t)           (* up to [tx.dialer.Load()] *)
| ReturnedEarly (err : error)                   (* left before it dialed *)
| Dials (cfg : TxConfig.t) (dialer : Dialer.t). (* [dialer.DialAndSend(m)] *)

(** A run: the transmitter, one call of [Send], and the stores that a
    goroutine calling [UpdateTxConfig] has still to do. *)
Definition system : Type := Tx.t * sender * list store.

Inductive step : system -> system -> Prop :=
| step_store tx s st pending :
    step (tx, s, st :: pending) (do_store st tx, s, pending)
| step_load_cfg tx cfg pending :
    Tx.cfg tx = Some cfg ->
    step (tx, BeforeCfgLoad, pending) (tx, BeforeDialerLoad cfg, pending)
| step_no_cfg tx pending :
    Tx.cfg tx = None ->
    step (tx, BeforeCfgLoad, pending)
         (tx, ReturnedEarly "transmitter is not configured, yet", pending)
| step_disk_error tx cfg err pending :          (* temp dir or attachment *)
    step (tx, BeforeDialerLoad cfg, pending) (tx, ReturnedEarly err, pending)
| step_load_dialer tx cfg dialer pending :
    Tx.dialer tx = Some dialer ->
    step (tx, BeforeDialerLoad cfg, pending) (tx, Dials cfg dialer, pending)
| step_no_dialer tx cfg pending :
    Tx.dialer tx = None ->
    step (tx, BeforeDialerLoad cfg, pending)
         (tx, ReturnedEarly "transmitter is not configured, yet", pending).

(** A run of one [Send] against the calls [UpdateTxConfig(cfg)] for the
    [cfgs], on a transmitter that was configured with [cfg0]. *)
Definition run_from (cfg0 : TxConfig.t) (cfgs : list TxConfig.t) : system :=
  (UpdateTxConfig cfg0 New, BeforeCfgLoad,
   concat (map UpdateTxConfig_stores cfgs)).

(** What the parts of a run may hold when all configs come from [known]. *)
Definition store_from (known : list TxConfig.t) (st : store) : Prop :=
  match st with
  | StoreCfg cfg => cfg ∈ known
  | StoreDialer dialer => ∃ cfg, cfg ∈ known ∧ dialer = dialer_of cfg
  end.

Definition sender_from (known : list TxConfig.t) (s : sender) : Prop :=
  match s with
  | BeforeCfgLoad | ReturnedEarly _ => True
  | BeforeDialerLoad cfg => cfg ∈ known
  | Dials cfg dialer =>
      cfg ∈ known ∧ ∃ cfg', cfg' ∈ known ∧ dialer = dialer_of cfg'
  end.

Definition system_from (known : list TxConfig.t) (sys : system) : Prop :=
  let '(tx, s, pending) := sys in
  (∀ cfg, Tx.cfg tx = Some cfg -> cfg ∈ known)
  ∧ (∀ dialer, Tx.dialer tx = Some dialer ->
               ∃ cfg, cfg ∈ known ∧ dialer = dialer_of cfg)
  ∧ sender_from known s
  ∧ Forall (store_from known) pending.

(** ** mail_recorder.go *)

Module Mail.
Record t : Type := mk { From : string; To : To; Message : Message.t }.
End Mail.

Module MemRecorder.
Record t : Type := mk { Mails : list Mail.t; cfg : option TxConfig.t }.
End MemRecorder.

(** How a loop body or a loop ends: control goes on to the next statement,
    the enclosing function returns a value, or an index is out of range. *)
Inductive flow (A : Type) : Type :=
| GoesOn
| Leaves (a : A)
| IndexOutOfRange.
Arguments GoesOn {A}.
Arguments Leaves {A} a.
Arguments IndexOutOfRange {A}.

(** [for i, to := range r.To { if to != m.To[i] { return false, nil } }],
    from index [i] on. *)
Fixpoint Seen_To (rTo : list string) (i : nat) (mTo : list string)
  : flow (bool * option error) :=
  match rTo with
  | [] => GoesOn
  | to :: rest =>
      match mTo !! i with
      | None => IndexOutOfRange
      | Some to' =>
          if decide (to ≠ to') then Leaves (false, None)
          else Seen_To rest (S i) mTo
      end
  end.

(** [for i, a := range r.Message.Attachments { a2 := ...[i]; if ... }],
    from index [i] on. *)
Fixpoint Seen_Attachments (rAs : list Attachment.t) (i : nat)
    (mAs : list Attachment.t) : flow (bool * option error) :=
  match rAs with
  | [] => GoesOn
  | a :: rest =>
      match mAs !! i with
      | None => IndexOutOfRange
      | Some a2 =>
          if negb (bytes_Equal (Attachment.Content a) (Attachment.Content a2))
             || bool_decide (Attachment.Kind a ≠ Attachment.Kind a2)
             || bool_decide (Attachment.Name a ≠ Attachment.Name a2)
          then Leaves (false, None)
          else Seen_Attachments rest (S i) mAs
      end
  end.

(** The body of the loop over [r.Mails], for the recorded mail [r]. *)
Definition Seen_body (r m : Mail.t) : flow (bool * option error) :=
  if decide (Mail.From r ≠ Mail.From m) then Leaves (false, None)
  else if decide (length (Mail.To r) ≠ length (Mail.To m))
  then Leaves (false, None)
  else match Seen_To (Mail.To r) 0 (Mail.To m) with
  | GoesOn =>
      if bool_decide (Message.Body (Mail.Message r) ≠ Message.Body (Mail.Message m))
         || bool_decide (Message.ContentType (Mail.Message r)
                         ≠ Message.ContentType (Mail.Message m))
         || bool_decide (Message.Topic (Mail.Message r)
                         ≠ Message.Topic (Mail.Message m))
      then Leaves (false, None)
      else if decide (length (Message.Attachments (Mail.Message r))
                      ≠ length (Message.Attachments (Mail.Message m)))
      then Leaves (false, None)
      else Seen_Attachments (Message.Attachments (Mail.Message r)) 0
             (Message.Attachments (Mail.Message m))
  | stop => stop
  end.

Fixpoint Seen_Mails (mails : list Mail.t) (m : Mail.t)
  : flow (bool * option error) :=
  match mails with
  | [] => GoesOn
  | r :: rest =>
      match Seen_body r m with
      | GoesOn => Seen_Mails rest m
      | stop => stop
      end
  end.

(** [func (r *MemRecorder) Seen(m Mail) (ok bool, err error)] *)
Definition Seen (r : MemRecorder.t) (m : Mail.t) : outcome (bool * option error) :=
  if decide (length (MemRecorder.Mails r) = 0%nat) then Returns (false, None)
  else match Seen_Mails (MemRecorder.Mails r) m with
       | GoesOn => Returns (true, None)
       | Leaves v => Returns v
       | IndexOutOfRange => Panics
       end.

(** [func (r *MemRecorder) Send(from, to, message, options...) (err error)]:
    the result and the recorder after the call. *)
Definition MemRecorder_Send (r : MemRecorder.t) (from : string) (to : To)
    (message : Message.t) (options : list SendOption)
  : option error * MemRecorder.t :=
  (None,
   MemRecorder.mk (MemRecorder.Mails r ++ [Mail.mk from to message])
     (MemRecorder.cfg r)).

Definition MemRecorder_UpdateTxConfig (cfg : TxConfig.t) (r : MemRecorder.t)
  : MemRecorder.t :=
  MemRecorder.mk (MemRecorder.Mails r) (Some cfg).

(** [TxConfig()]: the stored config, or its zero value. *)
Definition MemRecorder_TxConfig (r : MemRecorder.t) : TxConfig.t :=
  default (TxConfig.mk "" "" "" 0 "") (MemRecorder.cfg r).

(** Structural equality of two mails, field by field: the same sender;
    recipient lists of one length, equal place by place; the same topic,
    body and content type; attachment lists of one length, with the same
    name, kind and bytes place by place. *)
Definition same_attachment (a a2 : Attachment.t) : Prop :=
  Attachment.Name a = Attachment.Name a2
  ∧ Attachment.Kind a = Attachment.Kind a2
  ∧ Attachment.Content a = Attachment.Content a2.

Definition same_mail (r m : Mail.t) : Prop :=
  Mail.From r = Mail.From m
  ∧ Forall2 (=) (Mail.To r) (Mail.To m)
  ∧ Message.Topic (Mail.Message r) = Message.Topic (Mail.Message m)
  ∧ Message.Body (Mail.Message r) = Message.Body (Mail.Message m)
  ∧ Message.ContentType (Mail.Message r) = Message.ContentType (Mail.Message m)
  ∧ Forall2 same_attachment (Message.Attachments (Mail.Message r))
      (Message.Attachments (Mail.Message m)).

(** ** A machine to run the transmitter on

    A small concrete world for the capabilities of [OS] and [Transport]:
    directories and files by path, the mails handed to the SMTP server, and
    switches that make the next dial or the next removal fail. *)
Module Sim.

Record World : Type := mk {
  dirs : list string;
  files : list (string * list byte);
  sent : list (Dialer.t * GoMessage.t);
  dial_fails : option error;
  remove_fails : option error }.

(** The path [p] is [root] or lies below it. *)
Definition below (root p : string) : bool := String.prefix root p.

Definition Join (dir name : string) : string := dir +:+ "/" +:+ name.

Definition TempDir (dir pattern : string) (w : World)
  : (string + error) * World :=
  let name :=
    Join dir (pattern +:+ itoa (Z.of_nat (length (dirs w)))) in
  (inl name,
   mk (name :: dirs w) (files w) (sent w) (dial_fails w) (remove_fails w)).

Definition WriteFile (filename : string) (data : list byte) (w : World)
  : option error * World :=
  (None,
   mk (dirs w) ((filename, data) :: files w) (sent w) (dial_fails w)
     (remove_fails w)).

Definition RemoveAll (path : string) (w : World) : option error * World :=
  match remove_fails w with
  | Some err => (Some err, w)
  | None =>
      (None,
       mk (filter (λ d, negb (below path d)) (dirs w))
          (filter (λ f, negb (below path (fst f))) (files w))
          (sent w) (dial_fails w) (remove_fails w))
  end.

Definition ExtensionsByType (kind : string)
  : option (list string) * option error :=
  if decide (kind = "text/plain") then (Some [".txt"], None)
  else if decide (kind = "image/png") then (Some [".png"], None)
  else (None, None).

Definition DialAndSend (d : Dialer.t) (m : GoMessage.t) (w : World)
  : option error * World :=
  match dial_fails w with
  | Some err => (Some err, w)
  | None =>
      (None,
       mk (dirs w) (files w) (sent w ++ [(d, m)]) (dial_fails w)
          (remove_fails w))
  end.

(** Nothing of the tree at [root] is left. *)
Definition gone (root : string) (w : World) : Prop :=
  Forall (λ d, below root d = false) (dirs w)
  ∧ Forall (λ f, below root (fst f) = false) (files w).

#[global] Instance os : OS World :=
  Build_OS World TempDir WriteFile RemoveAll ExtensionsByType Join.

#[global] Instance smtp : Transport World := DialAndSend.

(** A world whose SMTP server cannot be reached. *)
Definition unreachable : World :=
  mk [] [] [] (Some "dial tcp 192.0.2.1:38145: connect: connection refused")
     None.

(** The configuration and the message of the package's test. *)
Definition test_config : TxConfig.t :=
  TxConfig.mk "test@example.de" "xxx" "smtp.example.de" 38145 "/tmp".

Definition test_message : Message.t :=
  Message.mk "The Frenchman says hello!" "Quelle fantastique bugette"
    [Attachment.mk "note" "text/plain" []] "text/plain".

(** A rendering capability: a program is the text it prints, whatever
    the data; a function of the table is a [func(time.Time, string) string]. *)
#[global] Instance engine : TemplateEngine := {|
  Data := unit;
  Func := Time.t -> string -> string;
  Program := string;
  Parse := λ _ _ src, Returns (inl src);
  Run := λ p _, inl p;
  funcOf := λ f, f |}.

(** A stand-in for the layouts that package time alone formats: such a
    layout is printed as it is. *)
#[global] Instance layouts : TimeLayouts := λ _ layout, layout.

(** A sniffer that takes everything for plain text. *)
#[global] Instance sniffer : Sniffer := λ _, "text/plain; charset=utf-8".

(** A function for a template to call. *)
Definition shout : Time.t -> string -> string := λ _ s, s +:+ "!".

End Sim.

(** The extension [writeFile] gives the file of an attachment of the MIME
    type [kind]: the first one the MIME tables know, or the word "unknown". *)
Definition attachment_ext {World} `{OS World} (kind : string) : string :=
  match ExtensionsByType kind with
  | (Some (e0 :: _), _) => e0
  | _ => "unknown"
  end.

(** The path of the file of the attachment [a] below [tempDirName]. *)
Definition attachment_path {World} `{OS World} (tempDirName : string)
    (a : Attachment.t) : string :=
  filepath_Join tempDirName
    (Attachment.Name a +:+ attachment_ext (World:=World) (Attachment.Kind a)).

(** The merges of two sequences of steps that keep the order of each. *)
Inductive interleaving {A : Type} : list A -> list A -> list A -> Prop :=
| interleaving_nil : interleaving [] [] []
| interleaving_left x xs ys zs :
    interleaving xs ys zs -> interleaving (x :: xs) ys (x :: zs)
| interleaving_right y xs ys zs :
    interleaving xs ys zs -> interleaving xs (y :: ys) (y :: zs).

(** The transmitter after the stores of a schedule. *)
Definition do_stores (schedule : list store) (tx : Tx.t) : Tx.t :=
  foldl (λ tx st, do_store st tx) tx schedule.

(** Values to run the code on. *)
Module Sample.

(** A template of the simulated engine, as [NewTemplate] leaves one whose
    function table is at location 1: nothing allowed, nothing attached. *)
Definition greeting : Template.t :=
  Template.mk (Some "The Frenchman says hello!")
    (Some "Quelle fantastique bugette") ∅ (Some 1%positive) "text/plain" [].

Definition note : RequestAttachment.t := RequestAttachment.mk "note" [].

(** The type the simulated sniffer finds in everything. *)
Definition plain : string := "text/plain; charset=utf-8".

Definition next_config : TxConfig.t :=
  TxConfig.mk "next@example.de" "yyy" "smtp2.example.de" 587 "/var/tmp".

End Sample.

(* ================================================================== *)
(** * Properties *)

Section ProcessAttachments.
Context `{Sniffer}.

Lemma processAttachments_from_ok allowed attachments aa :
  Forall (permitted allowed) attachments ->
  processAttachments_from allowed attachments aa
  = (aa ++ map stamp attachments, None).
Proof.
  intros Hall. revert aa.
  induction Hall as [|a rest Ha _ IH]; intros aa; simpl.
  - by rewrite app_nil_r.
  - unfold permitted in Ha. rewrite decide_True by done.
    rewrite IH, <- app_assoc. done.
Qed.

Lemma processAttachments_from_stop allowed pre bad post aa :
  Forall (permitted allowed) pre ->
  ¬ permitted allowed bad ->
  processAttachments_from allowed (pre ++ bad :: post) aa
  = (aa ++ map stamp pre,
     Some (errNotAllowed (DetectContentType (RequestAttachment.Content bad)))).
Proof.
  intros Hpre Hbad. revert aa.
  induction Hpre as [|a rest Ha _ IH]; intros aa; simpl.
  - unfold permitted in Hbad. rewrite decide_False by done.
    by rewrite app_nil_r.
  - unfold permitted in Ha. rewrite decide_True by done.
    rewrite IH, <- app_assoc. done.
Qed.

(** Every list either passes whole or splits at its first offender. *)
Lemma first_offender allowed (attachments : RequestAttachments) :
  Forall (permitted allowed) attachments
  ∨ ∃ pre bad post,
      attachments = pre ++ bad :: post
      ∧ Forall (permitted allowed) pre ∧ ¬ permitted allowed bad.
Proof.
  induction attachments as [|a rest IH].
  - left. constructor.
  - destruct (decide (permitted allowed a)) as [Ha|Ha].
    + destruct IH as [IH|(pre & bad & post & -> & Hpre & Hbad)].
      * left. by constructor.
      * right. exists (a :: pre), bad, post. repeat split; try done.
        by constructor.
    + right. exists [], a, rest. repeat split; try done.
Qed.

(** C1.  [processAttachments A S] succeeds exactly when the sniffed type of
    every attachment of [S] is in [A].  On success the result is [S] in its
    order: each attachment with its name and its content, and with the type
    sniffed from its content as its kind.  On failure the error is the text
    "MIME Type ", the sniffed type of the first attachment (in input order)
    that is not in [A], " is not allowed"; and the loop has stopped there:
    the attachments returned are those before it, none after it was looked
    at. *)
Theorem processAttachments_spec (A : gset string) (S : RequestAttachments) :
  let sniffed (a : RequestAttachment.t) :=
    DetectContentType (RequestAttachment.Content a) in
  let kinded (a : RequestAttachment.t) :=
    {| Attachment.Name := RequestAttachment.Name a;
       Attachment.Kind := sniffed a;
       Attachment.Content := RequestAttachment.Content a |} in
  (snd (processAttachments A S) = None ↔ Forall (λ a, sniffed a ∈ A) S)
  ∧ match processAttachments A S with
    | (aa, None) => aa = map kinded S
    | (aa, Some err) =>
        ∃ pre bad post,
          S = pre ++ bad :: post
          ∧ Forall (λ a, sniffed a ∈ A) pre
          ∧ (sniffed bad ∉ A)
          ∧ err = "MIME Type " +:+ sniffed bad +:+ " is not allowed"
          ∧ aa = map kinded pre
    end.
Proof.
  intros sniffed kinded.
  change (λ a, sniffed a ∈ A) with (permitted A).
  change kinded with stamp.
  unfold processAttachments.
  destruct (first_offender A S) as [Hall|(pre & bad & post & -> & Hpre & Hbad)].
  - rewrite processAttachments_from_ok by done. simpl. split; [split|]; done.
  - rewrite processAttachments_from_stop by done. simpl. split.
    + split; [done|]. intros Hall. exfalso. apply Hbad.
      apply Forall_app in Hall as [_ Hall]. by inversion Hall.
    + exists pre, bad, post. repeat split; done.
Qed.

End ProcessAttachments.


(** ** The recorder *)

Lemma bytes_Equal_true (a b : list byte) : bytes_Equal a b = true ↔ a = b.
Proof.
  revert b. induction a as [|x a IH]; intros [|y b]; simpl; try done.
  rewrite andb_true_iff, IH. split.
  - intros [Hxy ->]. f_equal. by apply Byte.byte_dec_bl.
  - intros [= -> ->]. split; [|done]. by apply Byte.byte_dec_lb.
Qed.

(** The inner loops go on exactly when the rest of the candidate's list,
    from the index reached, is the list ranged over. *)
Lemma Seen_To_drop (rTo : list string) (i : nat) (mTo : list string) :
  length rTo = length (drop i mTo) ->
  (rTo = drop i mTo ∧ Seen_To rTo i mTo = GoesOn)
  ∨ (rTo ≠ drop i mTo ∧ Seen_To rTo i mTo = Leaves (false, None)).
Proof.
  revert i. induction rTo as [|to rest IH]; intros i Hlen; simpl in *.
  - left. split; [|done]. symmetry. by apply nil_length_inv.
  - destruct (mTo !! i) as [to'|] eqn:Hi.
    + rewrite (drop_S _ _ _ Hi) in *. simpl in Hlen.
      destruct (decide (to ≠ to')) as [Hne|Heq].
      * right. split; [congruence|done].
      * apply dec_stable in Heq as ->.
        destruct (IH (S i)) as [[-> ->]|[Hne ->]]; [lia| |].
        -- by left.
        -- right. split; [congruence|done].
    + apply lookup_ge_None in Hi. rewrite drop_ge in Hlen by done. done.
Qed.

Lemma Seen_Attachments_drop (rAs : list Attachment.t) (i : nat)
    (mAs : list Attachment.t) :
  length rAs = length (drop i mAs) ->
  (rAs = drop i mAs ∧ Seen_Attachments rAs i mAs = GoesOn)
  ∨ (rAs ≠ drop i mAs ∧ Seen_Attachments rAs i mAs = Leaves (false, None)).
Proof.
  revert i. induction rAs as [|a rest IH]; intros i Hlen; simpl in *.
  - left. split; [|done]. symmetry. by apply nil_length_inv.
  - destruct (mAs !! i) as [a2|] eqn:Hi.
    + rewrite (drop_S _ _ _ Hi) in *. simpl in Hlen.
      destruct (negb (bytes_Equal (Attachment.Content a) (Attachment.Content a2))
                || bool_decide (Attachment.Kind a ≠ Attachment.Kind a2)
                || bool_decide (Attachment.Name a ≠ Attachment.Name a2))
        eqn:Hdiff.
      * right. split; [|done]. intros [= -> _].
        rewrite !orb_true_iff, negb_true_iff, !bool_decide_eq_true in Hdiff.
        destruct Hdiff as [[Hc|Hk]|Hn]; [|done|done].
        assert (bytes_Equal (Attachment.Content a2) (Attachment.Content a2)
                = true) by by apply bytes_Equal_true.
        congruence.
      * rewrite !orb_false_iff, negb_false_iff, !bool_decide_eq_false in Hdiff.
        destruct Hdiff as [[Hc%bytes_Equal_true Hk%dec_stable] Hn%dec_stable].
        assert (a = a2) as -> by (destruct a, a2; simpl in *; congruence).
        destruct (IH (S i)) as [[-> ->]|[Hne ->]]; [lia| |].
        -- by left.
        -- right. split; [congruence|done].
    + apply lookup_ge_None in Hi. rewrite drop_ge in Hlen by done. done.
Qed.

(** The body of the outer loop goes on exactly at an equal record. *)
Lemma Seen_body_eq (r m : Mail.t) :
  (r = m ∧ Seen_body r m = GoesOn)
  ∨ (r ≠ m ∧ Seen_body r m = Leaves (false, None)).
Proof.
  unfold Seen_body.
  destruct (decide (Mail.From r ≠ Mail.From m)) as [HF|HF%dec_stable].
  { right. split; [congruence|done]. }
  destruct (decide (length (Mail.To r) ≠ length (Mail.To m)))
    as [HL|HL%dec_stable].
  { right. split; [congruence|done]. }
  destruct (Seen_To_drop (Mail.To r) 0 (Mail.To m)) as [[HT ->]|[HT ->]];
    [done| |].
  2:{ right. split; [|done]. intros ->. by apply HT. }
  destruct (bool_decide _ || bool_decide _ || bool_decide _) eqn:Hmsg.
  { right. split; [|done]. intros ->.
    rewrite !orb_true_iff, !bool_decide_eq_true in Hmsg.
    by destruct Hmsg as [[?|?]|?]. }
  rewrite !orb_false_iff, !bool_decide_eq_false in Hmsg.
  destruct Hmsg as [[HB%dec_stable HC%dec_stable] HP%dec_stable].
  destruct (decide (length (Message.Attachments (Mail.Message r))
                    ≠ length (Message.Attachments (Mail.Message m))))
    as [HA|HA%dec_stable].
  { right. split; [congruence|done]. }
  destruct (Seen_Attachments_drop (Message.Attachments (Mail.Message r)) 0
              (Message.Attachments (Mail.Message m)))
    as [[HAs ->]|[HAs ->]]; [done| |].
  - left. split; [|done].
    rewrite drop_0 in HT. rewrite drop_0 in HAs.
    destruct r as [rf rt [? ? ? ?]], m as [mf mt [? ? ? ?]]; simpl in *.
    congruence.
  - right. split; [|done]. intros ->. by apply HAs.
Qed.

Lemma Seen_Mails_eq (mails : list Mail.t) (m : Mail.t) :
  (Forall (λ r, r = m) mails ∧ Seen_Mails mails m = GoesOn)
  ∨ (¬ Forall (λ r, r = m) mails ∧ Seen_Mails mails m = Leaves (false, None)).
Proof.
  induction mails as [|r rest IH]; simpl.
  - left. by split.
  - destruct (Seen_body_eq r m) as [[-> ->]|[Hne ->]].
    + destruct IH as [[Hall ->]|[Hnot ->]].
      * left. split; [by constructor|done].
      * right. split; [|done]. intros Hall. apply Hnot. by inversion Hall.
    + right. split; [|done]. intros Hall. apply Hne. by inversion Hall.
Qed.

Lemma same_attachment_eq (a a2 : Attachment.t) : same_attachment a a2 ↔ a = a2.
Proof.
  split.
  - intros (? & ? & ?). destruct a, a2; simpl in *. congruence.
  - intros ->. by repeat split.
Qed.

Lemma same_mail_eq (r m : Mail.t) : same_mail r m ↔ r = m.
Proof.
  split.
  - intros (HF & HT%list_eq_Forall2 & HP & HB & HC & HA).
    assert (Message.Attachments (Mail.Message r)
            = Message.Attachments (Mail.Message m)) as HA'.
    { apply list_eq_Forall2. eapply Forall2_impl; [done|].
      intros ? ?. by apply same_attachment_eq. }
    destruct r as [? ? [? ? ? ?]], m as [? ? [? ? ? ?]]; simpl in *.
    congruence.
  - intros ->. repeat split; try done; try (by apply list_eq_Forall2).
    apply Forall_Forall2_diag, Forall_forall.
    intros a _. by apply same_attachment_eq.
Qed.

(** [Seen] answers [true] on a log that is not empty and holds only [m],
    and [false] on any other. *)
Lemma Seen_cases (r : MemRecorder.t) (m : Mail.t) :
  (MemRecorder.Mails r ≠ [] ∧ Forall (λ x, x = m) (MemRecorder.Mails r)
   ∧ Seen r m = Returns (true, None))
  ∨ (¬ (MemRecorder.Mails r ≠ [] ∧ Forall (λ x, x = m) (MemRecorder.Mails r))
     ∧ Seen r m = Returns (false, None)).
Proof.
  unfold Seen.
  destruct (decide (length (MemRecorder.Mails r) = 0%nat)) as [H0|H0].
  - right. split; [|done]. intros [Hne _]. by apply nil_length_inv in H0.
  - assert (MemRecorder.Mails r ≠ []) as Hne.
    { intros E. by rewrite E in H0. }
    destruct (Seen_Mails_eq (MemRecorder.Mails r) m) as [[Hall ->]|[Hnot ->]].
    + by left.
    + right. split; [|done]. by intros [_ Hall].
Qed.

(** C6.  [Seen m] always returns, with a [nil] error, and its answer is
    [true] exactly when the log is not empty and every recorded mail is
    structurally equal to [m]; so it is [false] on an empty log and as soon
    as some recorded mail differs. *)
Theorem Seen_spec (r : MemRecorder.t) (m : Mail.t) :
  ∃ ok : bool,
    Seen r m = Returns (ok, None)
    ∧ (ok = true ↔
       MemRecorder.Mails r ≠ []
       ∧ Forall (λ x, same_mail x m) (MemRecorder.Mails r)).
Proof.
  assert (∀ l : list Mail.t,
            Forall (λ x, same_mail x m) l ↔ Forall (λ x, x = m) l) as Hsame.
  { intros l. apply Forall_proper; [|done]. intros x. apply same_mail_eq. }
  destruct (Seen_cases r m) as [(Hne & Hall & ->)|[Hnot ->]].
  - exists true. split; [done|]. split; [|done]. intros _.
    split; [done|]. by apply Hsame.
  - exists false. split; [done|]. split; [done|]. intros [Hne Hall].
    exfalso. apply Hnot. split; [done|]. by apply Hsame.
Qed.

(** C7.  [MemRecorder.Send] returns [nil] and appends to the log exactly
    one record, built from the arguments it was given; and on an empty log,
    [Send] followed by [Seen] of the mail with the same sender, recipients
    and message answers [true]. *)
Theorem MemRecorder_Send_then_Seen (r : MemRecorder.t) (from : string)
    (to : To) (message : Message.t) (options : list SendOption) :
  let after := MemRecorder_Send r from to message options in
  fst after = None
  ∧ MemRecorder.Mails (snd after)
    = MemRecorder.Mails r ++ [Mail.mk from to message]
  ∧ length (MemRecorder.Mails (snd after)) = S (length (MemRecorder.Mails r))
  ∧ (MemRecorder.Mails r = [] ->
     Seen (snd after) (Mail.mk from to message) = Returns (true, None)).
Proof.
  simpl. repeat split.
  - rewrite length_app. simpl. lia.
  - intros ->. simpl.
    destruct (Seen_cases (MemRecorder.mk [Mail.mk from to message]
                            (MemRecorder.cfg r)) (Mail.mk from to message))
      as [(_ & _ & Hret)|[Hnot _]]; [done|].
    exfalso. apply Hnot. simpl. split; [done|]. by constructor.
Qed.

(** ** The transmitter: Send *)

Section Transmitter.
Context {World : Type} `{OS World} `{Transport World}.

(** Once the temporary directory exists, [Send] is the deferred removal
    run after the function body: the world it leaves is the one
    [os.RemoveAll] leaves, and the error it returns is the one
    [os.RemoveAll] returns. *)
Lemma Send_unfold_deferred (tx : Tx.t) (from to0 : string) (more : list string)
    (message : Message.t) (options : list SendOption) (w w1 : World)
    (cfg : TxConfig.t) (tempDirName : string) :
  from ≠ "" ->
  Tx.cfg tx = Some cfg ->
  TempDir (TxConfig.TmpDir cfg) "f9a-mail" w = (inl tempDirName, w1) ->
  let m := Send_compose from to0 more message
             (fold_left (fun o opt => opt o) options (sendOptions.mk false)) in
  let left := Send_body tx tempDirName message m w1 in
  Send tx from (to0 :: more) message options w
  = (match fst left with
     | Returns _ => Returns (fst (RemoveAll tempDirName (snd left)))
     | Panics => Panics
     end,
     snd (RemoveAll tempDirName (snd left))).
Proof.
  intros Hfrom Hcfg Htmp. simpl. unfold Send.
  rewrite decide_False by done. rewrite Hcfg, Htmp.
  destruct (Send_body _ _ _ _ _) as [exit w2]. simpl.
  by destruct (RemoveAll tempDirName w2).
Qed.

(** C3.  When [Send] has created its temporary directory, every way of
    leaving the function body -- a failed attachment write, a missing
    dialer, the result of the transport whether [nil] or not, even a panic
    -- is followed by [os.RemoveAll] of that directory, and nothing comes
    after it.  [Send] returns the error of that removal in place of the one
    it was about to return; so when the removal fails, its failure is what
    [Send] returns, and when [Send] returns [nil] the directory and all that
    is below it are gone (for any reading [gone] of that which
    [os.RemoveAll] brings about when it succeeds). *)
Theorem Send_removes_tempdir (tx : Tx.t) (from to0 : string)
    (more : list string) (message : Message.t) (options : list SendOption)
    (w w1 : World) (cfg : TxConfig.t) (tempDirName : string)
    (gone : string -> World -> Prop) :
  from ≠ "" ->
  Tx.cfg tx = Some cfg ->
  TempDir (TxConfig.TmpDir cfg) "f9a-mail" w = (inl tempDirName, w1) ->
  (∀ v v', RemoveAll tempDirName v = (None, v') -> gone tempDirName v') ->
  let result := Send tx from (to0 :: more) message options w in
  ∃ (about_to_return : outcome (option error)) (w2 : World),
    Send_body tx tempDirName message
      (Send_compose from to0 more message
         (fold_left (fun o opt => opt o) options (sendOptions.mk false))) w1
    = (about_to_return, w2)
    ∧ snd result = snd (RemoveAll tempDirName w2)
    ∧ (∀ err, fst result = Returns err ->
              err = fst (RemoveAll tempDirName w2))
    ∧ (∀ err e, about_to_return = Returns err ->
                fst (RemoveAll tempDirName w2) = Some e ->
                fst result = Returns (Some e))
    ∧ (fst result = Returns None -> gone tempDirName (snd result)).
Proof.
  intros Hfrom Hcfg Htmp Hgone result. subst result.
  rewrite (Send_unfold_deferred _ _ _ _ _ _ _ _ _ _ Hfrom Hcfg Htmp).
  destruct (Send_body _ _ _ _ _) as [exit w2] eqn:Hbody. simpl.
  exists exit, w2. split; [done|]. split; [done|].
  destruct (RemoveAll tempDirName w2) as [rerr w3] eqn:Hrm. simpl.
  repeat split.
  - intros err. destruct exit; [|done]. by intros [= ->].
  - intros err e -> ->. done.
  - destruct exit; [|done]. intros [= ->]. by eapply Hgone.
Qed.

(** The error of the transport is lost: whatever [DialAndSend] answers,
    [Send] returns the result of the removal that follows. *)
Lemma Send_drops_transport_error (tx : Tx.t) (from to0 : string)
    (more : list string) (message : Message.t) (options : list SendOption)
    (w w1 w2 w3 : World) (cfg : TxConfig.t) (dialer : Dialer.t)
    (tempDirName : string) (m : GoMessage.t) (err : option error) :
  from ≠ "" ->
  Tx.cfg tx = Some cfg ->
  Tx.dialer tx = Some dialer ->
  TempDir (TxConfig.TmpDir cfg) "f9a-mail" w = (inl tempDirName, w1) ->
  Send_attachments tempDirName (Message.Attachments message)
    (Send_compose from to0 more message
       (fold_left (fun o opt => opt o) options (sendOptions.mk false))) w1
  = (Returns (inl m), w2) ->
  DialAndSend dialer m w2 = (err, w3) ->
  Send tx from (to0 :: more) message options w
  = (Returns (fst (RemoveAll tempDirName w3)), snd (RemoveAll tempDirName w3)).
Proof.
  intros Hfrom Hcfg Hd Htmp Hatt Hdial.
  rewrite (Send_unfold_deferred _ _ _ _ _ _ _ _ _ _ Hfrom Hcfg Htmp).
  unfold Send_body. simpl. rewrite Hatt, Hd, Hdial. done.
Qed.

(** [Tx.Send] refuses an empty sender and an empty list of recipients, and
    touches nothing. *)
Lemma Send_validates (tx : Tx.t) (from : string) (to : To)
    (message : Message.t) (options : list SendOption) (w : World) :
  from = "" ∨ to = [] ->
  ∃ err, Send tx from to message options w = (Returns (Some err), w).
Proof.
  unfold Send. intros [-> | ->].
  - rewrite decide_True by done. eauto.
  - destruct (decide (from = "")); eauto.
Qed.

End Transmitter.

(** The contract of [os.RemoveAll] on the simulated machine. *)
Lemma Sim_RemoveAll_gone (root : string) (v v' : Sim.World) :
  Sim.RemoveAll root v = (None, v') -> Sim.gone root v'.
Proof.
  unfold Sim.RemoveAll. destruct (Sim.remove_fails v); [done|].
  intros [= <-]. split; simpl.
  - apply Forall_forall. intros d [Hd _]%list_elem_of_filter.
    by apply negb_True, Is_true_false in Hd.
  - apply Forall_forall. intros f [Hf _]%list_elem_of_filter.
    by apply negb_True, Is_true_false in Hf.
Qed.

(** C3, at work: on the simulated machine the SMTP server of the package's
    test cannot be reached, and the directory that [Send] made for the
    attachment is gone when it returns. *)
Lemma Send_removes_tempdir_witness :
  Sim.gone "/tmp/f9a-mail0"
    (snd (Send (fst (Dial Sim.test_config)) "test@example.de"
            ["ava@example.de"] Sim.test_message [] Sim.unreachable)).
Proof.
  destruct (Send_removes_tempdir (fst (Dial Sim.test_config))
              "test@example.de" "ava@example.de" [] Sim.test_message []
              Sim.unreachable
              (snd (Sim.TempDir "/tmp" "f9a-mail" Sim.unreachable))
              Sim.test_config "/tmp/f9a-mail0" Sim.gone)
    as (about_to_return & w2 & _ & _ & _ & _ & Hgone).
  - done.
  - reflexivity.
  - reflexivity.
  - apply Sim_RemoveAll_gone.
  - apply Hgone. reflexivity.
Defined.

(** C4, the failing run: the server cannot be reached, the function body of
    [Send] is left with the error of the transport in [err], and [Send]
    returns [nil], the result of the removal that the deferred call assigns
    to [err]. *)
Theorem Send_returns_nil_on_dial_failure :
  let tx := fst (Dial Sim.test_config) in
  let from := "test@example.de" in
  let m := Send_compose from "ava@example.de" [] Sim.test_message
             (sendOptions.mk false) in
  fst (Send_body tx "/tmp/f9a-mail0" Sim.test_message m
         (snd (Sim.TempDir "/tmp" "f9a-mail" Sim.unreachable)))
  = Returns (Some "dial tcp 192.0.2.1:38145: connect: connection refused")
  ∧ fst (Send tx from ["ava@example.de"] Sim.test_message [] Sim.unreachable)
    = Returns None.
Proof. split; reflexivity. Qed.

(** C10.  [MemRecorder.Send] checks nothing: with any sender, the empty
    string included, and any recipients, the empty list included, it
    returns [nil] and appends the record as given, whatever the options
    are; [Tx.Send] returns an error for an empty sender and for an empty
    list of recipients, and leaves the world as it was. *)
Theorem MemRecorder_Send_no_validation {World : Type} `{OS World}
    `{Transport World} (r : MemRecorder.t) (from : string) (to : To)
    (message : Message.t) (options options' : list SendOption)
    (tx : Tx.t) (w : World) :
  MemRecorder_Send r from to message options
  = (None,
     MemRecorder.mk (MemRecorder.Mails r ++ [Mail.mk from to message])
       (MemRecorder.cfg r))
  ∧ MemRecorder_Send r "" [] message options
    = (None,
       MemRecorder.mk (MemRecorder.Mails r ++ [Mail.mk "" [] message])
         (MemRecorder.cfg r))
  ∧ MemRecorder_Send r from to message options
    = MemRecorder_Send r from to message options'
  ∧ (∃ err, Send tx "" to message options w = (Returns (Some err), w))
  ∧ (∃ err, Send tx from [] message options w = (Returns (Some err), w)).
Proof.
  repeat split.
  - apply Send_validates. by left.
  - apply Send_validates. by right.
Qed.

(** ** The transmitter: validation of the configuration *)

(** The gathered failures are empty exactly when there were none to start
    with and every field passes its rules. *)
Lemma ValidateStruct_from_empty (fields : list oz.FieldRules) (errs : oz.Errors) :
  oz.ValidateStruct_from fields errs = ∅
  ↔ errs = ∅
    ∧ Forall (λ f, oz.Validate (oz.field_value f) (oz.field_rules f) = None)
        fields.
Proof.
  revert errs. induction fields as [|f rest IH]; intros errs; simpl.
  - split; [by intros ->|by intros [-> _]].
  - destruct (oz.Validate (oz.field_value f) (oz.field_rules f)) as [err|] eqn:Hf.
    + rewrite IH. split.
      * intros [Hins _]. by apply insert_non_empty in Hins.
      * intros [_ Hall]. inversion Hall; congruence.
    + rewrite IH. split.
      * intros [-> Hall]. split; [done|]. by constructor.
      * intros [-> Hall]. split; [done|]. by inversion Hall.
Qed.

Lemma ValidateStruct_None (fields : list oz.FieldRules) :
  oz.ValidateStruct fields = None
  ↔ Forall (λ f, oz.Validate (oz.field_value f) (oz.field_rules f) = None)
      fields.
Proof.
  unfold oz.ValidateStruct.
  destruct (decide (oz.ValidateStruct_from fields ∅ = ∅)) as [He|He].
  - split; [|done]. intros _. by apply ValidateStruct_from_empty in He as [_ ?].
  - split; [done|]. intros Hall. exfalso. apply He.
    by apply ValidateStruct_from_empty.
Qed.

Lemma Required_string (s : string) :
  oz.Validate (oz.OfString s) [oz.Required] = None ↔ s ≠ "".
Proof.
  unfold oz.Validate, oz.Required. destruct s as [|c s]; cbn; by split.
Qed.

(** [Required] refuses the port 0, which [Min(0)] alone would let pass. *)
Lemma port_rules (p : Z) :
  oz.Validate (oz.OfInt p) [oz.Required; oz.Min 0; oz.Max 49151] = None
  ↔ 1 <= p <= 49151.
Proof.
  unfold oz.Validate, oz.Required, oz.Min, oz.Max. simpl.
  destruct (p =? 0) eqn:H0; [split; [done|lia]|].
  destruct (0 <=? p) eqn:Hmin; [|split; [done|lia]].
  destruct (p <=? 49151) eqn:Hmax; [|split; [done|lia]].
  split; [lia|done].
Qed.

Lemma TxConfig_Validate_None (cfg : TxConfig.t) :
  TxConfig_Validate cfg = None
  ↔ TxConfig.User cfg ≠ "" ∧ TxConfig.Password cfg ≠ ""
    ∧ TxConfig.Host cfg ≠ "" ∧ 1 <= TxConfig.Port cfg <= 49151.
Proof.
  unfold TxConfig_Validate. rewrite ValidateStruct_None.
  rewrite !Forall_cons, Forall_nil. cbn [oz.field_value oz.field_rules].
  rewrite !Required_string, port_rules. tauto.
Qed.

(** C5, as the code has it.  [Validate] succeeds exactly when user,
    password and host are not empty and the port is between 1 and 49151:
    the rule [Required] on the port refuses 0.  [Dial] validates first: it
    succeeds, with the config and its dialer stored, under the same
    condition, and otherwise returns the error with a transmitter in which
    nothing is stored; a port of 70000 always fails. *)
Theorem TxConfig_Validate_spec (cfg : TxConfig.t) :
  let valid :=
    TxConfig.User cfg ≠ "" ∧ TxConfig.Password cfg ≠ ""
    ∧ TxConfig.Host cfg ≠ "" ∧ 1 <= TxConfig.Port cfg <= 49151 in
  (TxConfig_Validate cfg = None ↔ valid)
  ∧ (snd (Dial cfg) = None ↔ valid)
  ∧ (snd (Dial cfg) = None ->
     fst (Dial cfg)
     = Tx.mk (Some (NewDialer (TxConfig.Host cfg) (TxConfig.Port cfg)
                      (TxConfig.User cfg) (TxConfig.Password cfg)))
         (Some cfg))
  ∧ (snd (Dial cfg) ≠ None ->
     snd (Dial cfg) = TxConfig_Validate cfg ∧ fst (Dial cfg) = Tx.mk None None)
  ∧ (TxConfig.Port cfg = 70000 -> snd (Dial cfg) ≠ None).
Proof.
  simpl. pose proof (TxConfig_Validate_None cfg) as Hv. unfold Dial.
  destruct (TxConfig_Validate cfg) as [errs|] eqn:HV; simpl.
  - repeat split; try done.
    + intros Hvalid. by apply Hv in Hvalid.
    + intros Hvalid. by apply Hv in Hvalid.
  - repeat split; try done; try tauto.
    intros Hp. destruct Hv as [Hv _]. specialize (Hv eq_refl). lia.
Qed.

(** C5, the counterexample: a config with user, password and host and with
    port 0 has its port between 0 and 49151, and [Validate] and [Dial]
    refuse it. *)
Lemma TxConfig_Validate_refuses_port_0 :
  let cfg := TxConfig.mk "u" "p" "h" 0 "" in
  (TxConfig.User cfg ≠ "" ∧ TxConfig.Password cfg ≠ ""
   ∧ TxConfig.Host cfg ≠ "" ∧ 0 <= TxConfig.Port cfg <= 49151)
  ∧ TxConfig_Validate cfg = Some {[ "port" := "cannot be blank" ]}
  ∧ Dial cfg = (Tx.mk None None, Some {[ "port" := "cannot be blank" ]}).
Proof.
  simpl. split; [repeat split; (done || lia)|].
  assert (TxConfig_Validate (TxConfig.mk "u" "p" "h" 0 "")
          = Some {[ "port" := "cannot be blank" ]}) as HV.
  { by vm_compute. }
  split; [done|]. unfold Dial. by rewrite HV.
Qed.

(** ** timef *)

(** Outside its four names, [timef] hands the format to [Format]. *)
Lemma timef_default `{TimeLayouts} (t : Time.t) (format : string) :
  format ≠ "date-short-de" -> format ≠ "date-long-de" ->
  format ≠ "time-short-de" -> format ≠ "time-long-de" ->
  timef t format = Time_Format t format.
Proof.
  intros H1 H2 H3 H4. unfold timef. by rewrite !decide_False by done.
Qed.

(** C8.  A time on 2021-05-03 falls on a Monday; [timef] gives it the short
    German date "03.05.2021" and the long German date "Mo, 03. Mai 2021",
    which starts with the first two letters of "Montag"; and a format that
    is none of the four German names is used as the layout of [Format]. *)
Theorem timef_spec `{TimeLayouts} (t : Time.t) :
  Time.Year t = 2021 -> Time.Month t = May -> Time.Day t = 3 ->
  Time_Weekday t = Monday
  ∧ timef t "date-short-de" = "03.05.2021"
  ∧ timef t "date-long-de" = "Mo, 03. Mai 2021"
  ∧ String.substring 0 2 (days (Time_Weekday t)) = "Mo"
  ∧ ∀ format : string,
      format ∉ ["date-short-de"; "date-long-de"; "time-short-de"; "time-long-de"] ->
      timef t format = Time_Format t format.
Proof.
  destruct t as [y m d hh mm ss ns zone offset]. simpl. intros -> -> ->.
  repeat split; try reflexivity.
  intros format Hnot. apply timef_default; intros ->; apply Hnot; set_solver.
Qed.

(** C8, at work: a quarter past two in the afternoon of that day; and the
    layout of the C library's date, which is none of the four names. *)
Lemma timef_spec_witness :
  let t := Time.mk 2021 May 3 14 15 0 0 "CEST" 7200 in
  timef t "date-short-de" = "03.05.2021"
  ∧ timef t "date-long-de" = "Mo, 03. Mai 2021"
  ∧ timef t "Mon Jan _2 15:04:05 2006" = Time_Format t "Mon Jan _2 15:04:05 2006"
  ∧ timef t "Mon Jan _2 15:04:05 2006" = "Mon May  3 14:15:00 2021".
Proof.
  destruct (timef_spec (Time.mk 2021 May 3 14 15 0 0 "CEST" 7200)
              eq_refl eq_refl eq_refl)
    as (_ & Hshort & Hlong & _ & Hother).
  simpl. split; [exact Hshort|]. split; [exact Hlong|]. split.
  - apply Hother. rewrite !not_elem_of_cons. repeat split; try done.
    apply not_elem_of_nil.
  - reflexivity.
Defined.

(** ** Execute and the template it is called on *)

Section Execute.
Context `{TemplateEngine} `{Sniffer}.

(** The options that assign a field leave every table as it was, and the
    reference to the function table with it. *)
Lemma applyOptions_assigns_field (opts : list Option) (tpl : Template.t)
    (σ : Store) :
  Forall assigns_field opts ->
  ∃ tpl', applyOptions opts tpl σ = Returns (tpl', σ)
          ∧ Template.funcs tpl' = Template.funcs tpl
          ∧ Template.topic tpl' = Template.topic tpl
          ∧ Template.body tpl' = Template.body tpl.
Proof.
  intros Hall. revert tpl.
  induction Hall as [|opt rest Hopt _ IH]; intros tpl; simpl.
  - by exists tpl.
  - destruct Hopt; simpl;
      match goal with
      | |- context [applyOptions rest ?t σ] =>
          destruct (IH t) as (tpl' & -> & ? & ? & ?)
      end; by exists tpl'.
Qed.

(** With such options a call of [Execute] that returns leaves the store,
    and so all that the caller's template refers to, as it found it. *)
Lemma Execute_assigns_field_keeps_store (T : Template.t) (data : Data)
    (opts : list Option) (σ σ' : Store) (result : Message.t * option error) :
  Forall assigns_field opts ->
  Execute T data opts σ = Returns (result, σ') ->
  σ' = σ.
Proof.
  intros Hall. unfold Execute.
  destruct (applyOptions_assigns_field opts T σ Hall) as (tpl' & -> & _).
  destruct (executeTemplate (Template.topic tpl') data) as [[? [?|]]|];
    [congruence| |done].
  destruct (executeTemplate (Template.body tpl') data) as [[? [?|]]|];
    [congruence| |done].
  destruct (processAttachments _ _) as [? [?|]]; congruence.
Qed.

(** [TemplateFuncs] writes its entries into the table the template refers
    to: the one every copy of the template shares. *)
Lemma TemplateFuncs_writes (funcs : gmap string Func) (tpl : Template.t)
    (σ : Store) (l : loc) (table : gmap string Func) (k : string) (f : Func) :
  Template.funcs tpl = Some l -> σ !! l = Some table -> funcs !! k = Some f ->
  ∃ σ' table',
    TemplateFuncs funcs tpl σ = Returns (tpl, σ')
    ∧ σ' !! l = Some table' ∧ table' !! k = Some f.
Proof.
  intros Hl Hσ Hk. unfold TemplateFuncs.
  rewrite decide_False by (intros ->; by rewrite lookup_empty in Hk).
  rewrite Hl. eexists _, _. split; [done|]. split.
  - rewrite lookup_alter_eq, Hσ. done.
  - revert Hk. apply (map_fold_weak_ind
      (λ acc m, m !! k = Some f -> acc !! k = Some f)).
    + by rewrite lookup_empty.
    + intros i x m acc Hi IH Hins.
      destruct (decide (i = k)) as [->|Hne].
      * rewrite lookup_insert_eq in Hins |- *. done.
      * rewrite lookup_insert_ne in Hins |- * by done. by apply IH.
Qed.

End Execute.

(** C2, the failing run.  A template [T] fresh from [NewTemplate] has a
    function table that holds [timef] alone.  One call of [Execute] on [T]
    with the option [TemplateFuncs] returns its message, and the table of
    [T] holds the function of that call from then on: the call wrote into
    the map that its copy of [T] shares with [T]. *)
Theorem Execute_TemplateFuncs_writes_into_Template :
  ∃ (T : Template.t) (σ σ' : Store) (msg : Message.t),
    NewTemplate "{{.Name}} says hello!" "{{.Quote}}" [] ∅
    = Returns ((T, None), σ)
    ∧ dom (funcs_of T σ) = {[ "timef" ]}
    ∧ Execute T tt [TemplateFuncs {[ "shout" := Sim.shout ]}] σ
      = Returns ((msg, None), σ')
    ∧ funcs_of T σ' !! "shout" = Some Sim.shout
    ∧ funcs_of T σ' ≠ funcs_of T σ.
Proof.
  eexists _, _, _, _. split; [reflexivity|].
  split; [reflexivity|]. split; [reflexivity|]. split; [reflexivity|].
  intros Heq. apply (f_equal (λ m, m !! "shout")) in Heq.
  change (Some Sim.shout = None) in Heq. discriminate Heq.
Qed.

(** With options that assign a field, a later call on the same template
    starts from the store the earlier call started from: it sees its own
    options and nothing of the earlier call's. *)
Lemma Execute_sequential `{TemplateEngine} `{Sniffer} (T : Template.t)
    (data data' : Data) (opts opts' : list Option) (σ σ' : Store)
    (result : Message.t * option error) :
  Forall assigns_field opts ->
  Execute T data opts σ = Returns (result, σ') ->
  Execute T data' opts' σ' = Execute T data' opts' σ.
Proof.
  intros Hall Hrun.
  by rewrite (Execute_assigns_field_keeps_store _ _ _ _ _ _ Hall Hrun).
Qed.

(** ** UpdateTxConfig while a Send is running *)

(** Run alone, the two stores of a call are [UpdateTxConfig]. *)
Lemma UpdateTxConfig_stores_alone (cfg : TxConfig.t) (tx : Tx.t) :
  foldl (λ tx st, do_store st tx) tx (UpdateTxConfig_stores cfg)
  = UpdateTxConfig cfg tx.
Proof. done. Qed.

Lemma store_from_mono (known known' : list TxConfig.t) (st : store) :
  known ⊆ known' -> store_from known st -> store_from known' st.
Proof.
  intros Hsub. destruct st as [cfg|dialer]; simpl.
  - apply Hsub.
  - intros (cfg & Hin & ->). exists cfg. split; [by apply Hsub|done].
Qed.

Lemma UpdateTxConfig_stores_known (cfgs : list TxConfig.t) :
  Forall (store_from cfgs) (concat (map UpdateTxConfig_stores cfgs)).
Proof.
  induction cfgs as [|c cfgs IH]; simpl; [done|].
  constructor; [simpl; apply list_elem_of_here|].
  constructor; [exists c; split; [apply list_elem_of_here|done]|].
  eapply Forall_impl; [apply IH|].
  intros st. apply store_from_mono. intros x. apply list_elem_of_further.
Qed.

Lemma run_from_known (cfg0 : TxConfig.t) (cfgs : list TxConfig.t) :
  system_from (cfg0 :: cfgs) (run_from cfg0 cfgs).
Proof.
  unfold run_from, system_from. simpl. split_and!; [| |done|].
  - intros cfg [= <-]. apply list_elem_of_here.
  - intros dialer [= <-]. exists cfg0. split; [apply list_elem_of_here|done].
  - eapply Forall_impl; [apply UpdateTxConfig_stores_known|].
    intros st. apply store_from_mono. intros x. apply list_elem_of_further.
Qed.

Lemma step_known (known : list TxConfig.t) (sys sys' : system) :
  step sys sys' -> system_from known sys -> system_from known sys'.
Proof.
  intros Hstep. destruct Hstep; simpl; intros (Hcfg & Hdialer & Hs & Hp).
  - rewrite Forall_cons in Hp. destruct Hp as [Hst Hp].
    destruct st; simpl in *.
    + split_and!; try done. by intros ? [= <-].
    + split_and!; try done. by intros ? [= <-].
  - split_and!; try done. by apply Hcfg.
  - done.
  - done.
  - split_and!; try done. by apply Hdialer.
  - done.
Qed.

Lemma steps_known (known : list TxConfig.t) (sys sys' : system) :
  rtc step sys sys' -> system_from known sys -> system_from known sys'.
Proof. induction 1; eauto using step_known. Qed.

(** Two runs of a [Send] against one [UpdateTxConfig].  In the first the
    update is half done when [Send] has loaded the old config; in the
    second the update then finishes and [Send] loads the new dialer. *)
Lemma mixed_run :
  let old := Sim.test_config in
  let new := TxConfig.mk "next@example.de" "yyy" "smtp2.example.de" 587 "/var/tmp" in
  rtc step (run_from old [new])
    (Tx.mk (Some (dialer_of old)) (Some new), BeforeDialerLoad old,
     [StoreDialer (dialer_of new)])
  ∧ rtc step (run_from old [new])
      (UpdateTxConfig new (UpdateTxConfig old New),
       Dials old (dialer_of new), []).
Proof.
  simpl.
  assert (rtc step
            (run_from Sim.test_config
               [TxConfig.mk "next@example.de" "yyy" "smtp2.example.de" 587
                  "/var/tmp"])
            (Tx.mk (Some (dialer_of Sim.test_config))
               (Some (TxConfig.mk "next@example.de" "yyy" "smtp2.example.de"
                        587 "/var/tmp")),
             BeforeDialerLoad Sim.test_config,
             [StoreDialer
                (dialer_of (TxConfig.mk "next@example.de" "yyy"
                              "smtp2.example.de" 587 "/var/tmp"))])) as Hhalf.
  { eapply rtc_l; [by apply step_load_cfg|].
    eapply rtc_l; [apply step_store|]. apply rtc_refl. }
  split; [exact Hhalf|].
  eapply rtc_trans; [exact Hhalf|].
  eapply rtc_l; [apply step_store|].
  eapply rtc_l; [by apply step_load_dialer|]. apply rtc_refl.
Qed.

(** C9, as the code has it.  Whatever the interleaving of a [Send] with
    calls of [UpdateTxConfig], the config that [Send] loaded is one whole
    config that was stored, and the dialer it dials with was built from one
    whole config that was stored: host, port, user and password of the
    connection belong together.  (That the config and the dialer come from
    the same call is not among the things that hold.) *)
Theorem Send_during_UpdateTxConfig (cfg0 : TxConfig.t)
    (cfgs : list TxConfig.t) (tx : Tx.t) (cfg : TxConfig.t)
    (dialer : Dialer.t) (pending : list store) :
  rtc step (run_from cfg0 cfgs) (tx, Dials cfg dialer, pending) ->
  cfg ∈ cfg0 :: cfgs
  ∧ ∃ cfg', cfg' ∈ cfg0 :: cfgs
            ∧ Dialer.Host dialer = TxConfig.Host cfg'
            ∧ Dialer.Port dialer = TxConfig.Port cfg'
            ∧ Dialer.Username dialer = TxConfig.User cfg'
            ∧ Dialer.Password dialer = TxConfig.Password cfg'.
Proof.
  intros Hrun.
  apply (steps_known (cfg0 :: cfgs)) in Hrun; [|apply run_from_known].
  destruct Hrun as (_ & _ & [Hcfg (cfg' & Hin & ->)] & _).
  split; [done|]. by exists cfg'.
Qed.

(** C9, at work: the run in which [Send] loads the config, the update
    stores both its values, and [Send] loads the dialer. *)
Lemma Send_during_UpdateTxConfig_witness :
  ∃ cfg', cfg' ∈ [Sim.test_config;
                  TxConfig.mk "next@example.de" "yyy" "smtp2.example.de" 587
                    "/var/tmp"]
          ∧ "smtp2.example.de" = TxConfig.Host cfg'
          ∧ 587 = TxConfig.Port cfg'
          ∧ "next@example.de" = TxConfig.User cfg'
          ∧ "yyy" = TxConfig.Password cfg'.
Proof.
  exact (proj2 (Send_during_UpdateTxConfig Sim.test_config
                  [TxConfig.mk "next@example.de" "yyy" "smtp2.example.de" 587
                     "/var/tmp"]
                  _ _ _ _ (proj2 mixed_run))).
Defined.

(** C9, the counterexample.  [UpdateTxConfig] is not one step: after its
    first store the transmitter holds the new config beside the old
    dialer.  And a [Send] that runs meanwhile ends up with the config of
    one call, with its host and its temporary directory, and the dialer of
    another. *)
Lemma Send_pairs_config_and_dialer_of_two_calls :
  let old := Sim.test_config in
  let new := TxConfig.mk "next@example.de" "yyy" "smtp2.example.de" 587 "/var/tmp" in
  rtc step (run_from old [new])
    (Tx.mk (Some (dialer_of old)) (Some new), BeforeDialerLoad old,
     [StoreDialer (dialer_of new)])
  ∧ rtc step (run_from old [new])
      (UpdateTxConfig new (UpdateTxConfig old New),
       Dials old (dialer_of new), [])
  ∧ dialer_of new ≠ dialer_of old
  ∧ Dialer.Host (dialer_of new) ≠ TxConfig.Host old
  ∧ Dialer.Username (dialer_of new) ≠ TxConfig.User old.
Proof.
  simpl. split; [apply mixed_run|]. split; [apply mixed_run|].
  split_and!; discriminate.
Qed.

(* ================================================================== *)
(** * Further properties of the code *)

(** ** The allow-list *)

Lemma makeAllowedAttachmentTypesIdx_from (types : list string)
    (idx : gset string) (t : string) :
  t ∈ fold_left (fun idx t => {[ t ]} ∪ idx) types idx ↔ t ∈ types ∨ t ∈ idx.
Proof.
  revert idx. induction types as [|t' types IH]; intros idx; simpl.
  - rewrite elem_of_nil. tauto.
  - rewrite IH, elem_of_cons, elem_of_union, elem_of_singleton. tauto.
Qed.

(** X1.  The index that [makeAllowedAttachmentTypesIdx] builds holds
    exactly the types of the list: order and repetitions of the list do not
    matter, and the empty list gives the empty index. *)
Theorem makeAllowedAttachmentTypesIdx_spec (types : list string) (t : string) :
  (t ∈ makeAllowedAttachmentTypesIdx types ↔ t ∈ types)
  ∧ (types = [] ↔ makeAllowedAttachmentTypesIdx types = ∅).
Proof.
  assert (∀ x, x ∈ makeAllowedAttachmentTypesIdx types ↔ x ∈ types) as Hin.
  { intros x. unfold makeAllowedAttachmentTypesIdx.
    rewrite makeAllowedAttachmentTypesIdx_from, elem_of_empty. tauto. }
  split; [apply Hin|]. split.
  - by intros ->.
  - intros Hempty. destruct types as [|t' types]; [done|].
    exfalso. apply (not_elem_of_empty (C:=gset string) t').
    rewrite <- Hempty. apply Hin, list_elem_of_here.
Qed.

(** ** processAttachments and the allow-list *)

Section MoreProcessAttachments.
Context `{Sniffer}.

Lemma permitted_mono (A A' : gset string) (a : RequestAttachment.t) :
  A ⊆ A' -> permitted A a -> permitted A' a.
Proof. unfold permitted. intros Hsub. apply Hsub. Qed.

(** Success says that every attachment is permitted. *)
Lemma processAttachments_None (A : gset string) (S : RequestAttachments)
    (aa : list Attachment.t) :
  processAttachments A S = (aa, None) ->
  Forall (permitted A) S ∧ aa = map stamp S.
Proof.
  unfold processAttachments.
  destruct (first_offender A S) as [Hall|(pre & bad & post & -> & Hpre & Hbad)].
  - rewrite processAttachments_from_ok by done. by intros [= <-].
  - by rewrite processAttachments_from_stop by done.
Qed.

(** X2.  A longer allow-list never turns a success into a failure, and the
    attachments returned do not depend on the allow-list: what passes
    under [A] passes under every [A'] that contains [A], with the same
    result. *)
Theorem processAttachments_mono (A A' : gset string) (S : RequestAttachments)
    (aa : list Attachment.t) :
  A ⊆ A' ->
  processAttachments A S = (aa, None) ->
  processAttachments A' S = (aa, None).
Proof.
  intros Hsub [Hall ->]%processAttachments_None.
  unfold processAttachments. rewrite processAttachments_from_ok; [done|].
  eapply Forall_impl; [done|]. intros a. by apply permitted_mono.
Qed.

End MoreProcessAttachments.

(** X2, at work: a note that passes where only plain text is allowed
    passes where images are allowed too. *)
Lemma processAttachments_mono_witness :
  processAttachments {[ "text/plain; charset=utf-8"; "image/png" ]}
    [RequestAttachment.mk "note" []]
  = ([Attachment.mk "note" "text/plain; charset=utf-8" []], None).
Proof.
  apply (processAttachments_mono {[ "text/plain; charset=utf-8" ]}).
  - set_solver.
  - reflexivity.
Defined.

(** ** Execute: what a call returns *)

Section MoreExecute.
Context `{TemplateEngine} `{Sniffer}.

(** The writes of [TemplateFuncs] amount to a union in which the entries
    of the option win. *)
Lemma TemplateFuncs_fold (funcs table : gmap string Func) :
  map_fold (fun k f acc => <[k := f]> acc) table funcs = funcs ∪ table.
Proof.
  apply (map_fold_weak_ind (λ acc m, acc = m ∪ table)).
  - by rewrite (left_id_L ∅ (∪)).
  - intros i x m acc _ ->. by rewrite insert_union_l.
Qed.

(** X3.  When [Execute] returns an error, the message beside it carries no
    attachments and no content type (it may carry the topic and the body
    that were rendered before the failure). *)
Theorem Execute_error_message (T : Template.t) (data : Data)
    (opts : list Option) (σ σ' : Store) (msg : Message.t) (err : error) :
  Execute T data opts σ = Returns ((msg, Some err), σ') ->
  Message.Attachments msg = [] ∧ Message.ContentType msg = "".
Proof.
  unfold Execute. destruct (applyOptions opts T σ) as [[tpl σ1]|]; [|done].
  destruct (executeTemplate (Template.topic tpl) data) as [[t [e|]]|];
    [by intros [= <- _ _]| |done].
  destruct (executeTemplate (Template.body tpl) data) as [[b [e|]]|];
    [by intros [= <- _ _]| |done].
  destruct (processAttachments _ _) as [aa [e|]]; [|done].
  by intros [= <- _ _].
Qed.

(** X4.  When [Execute] returns without error, the message is built from
    the template as the options of the call left it: its content type is
    that template's, its topic and body are what the two programs render,
    and its attachments are that template's attachments in their order,
    each with the kind that was sniffed from its content, a kind of the
    allow-list. *)
Theorem Execute_success_message (T T' : Template.t) (data : Data)
    (opts : list Option) (σ σ1 σ' : Store) (msg : Message.t) :
  applyOptions opts T σ = Returns (T', σ1) ->
  Execute T data opts σ = Returns ((msg, None), σ') ->
  σ' = σ1
  ∧ Message.ContentType msg = Template.contentType T'
  ∧ (∃ pt pb, Template.topic T' = Some pt ∧ Template.body T' = Some pb
              ∧ Run pt data = inl (Message.Topic msg)
              ∧ Run pb data = inl (Message.Body msg))
  ∧ Message.Attachments msg = map stamp (Template.attachments T')
  ∧ Forall (λ a, Attachment.Kind a ∈ Template.allowedAttachmentTypes T'
                 ∧ Attachment.Kind a
                   = DetectContentType (Attachment.Content a))
      (Message.Attachments msg).
Proof.
  intros Hopts. unfold Execute. rewrite Hopts. unfold executeTemplate.
  destruct (Template.topic T') as [pt|]; [|done].
  destruct (Run pt data) as [t|e] eqn:Ht; [|done].
  destruct (Template.body T') as [pb|]; [|done].
  destruct (Run pb data) as [b|e] eqn:Hb; [|done].
  destruct (processAttachments _ _) as [aa [e|]] eqn:Hatt; [done|].
  intros [= <- <-]. apply processAttachments_None in Hatt as [Hall ->].
  simpl. split_and!; try done.
  - by exists pt, pb.
  - apply Forall_fmap. eapply Forall_impl; [done|]. by intros a Ha.
Qed.

(** X5.  The options [AllowAttachments] and [WithAttachments] of a call
    replace what the template holds: with both given, the call succeeds
    exactly when every attachment of the call has a sniffed type among the
    types of the call, whatever the template allowed or carried before. *)
Theorem Execute_call_options_replace (T : Template.t) (data : Data)
    (types : list string) (S : RequestAttachments) (σ : Store)
    (pt pb : Program) (t b : string) :
  Template.topic T = Some pt -> Template.body T = Some pb ->
  Run pt data = inl t -> Run pb data = inl b ->
  ∃ msg err,
    Execute T data [AllowAttachments types; WithAttachments S] σ
    = Returns ((msg, err), σ)
    ∧ (err = None ↔
       Forall (λ a, DetectContentType (RequestAttachment.Content a) ∈ types) S)
    ∧ (err = None ->
       msg = Message.mk t b (map stamp S) (Template.contentType T)).
Proof.
  intros Ht Hb Hrt Hrb. unfold Execute. simpl. unfold executeTemplate.
  rewrite Ht, Hrt, Hb, Hrb.
  assert (Forall (permitted (makeAllowedAttachmentTypesIdx types)) S
          ↔ Forall (λ a, DetectContentType (RequestAttachment.Content a)
                         ∈ types) S) as Hiff.
  { apply Forall_proper; [|done]. intros a. unfold permitted.
    unfold makeAllowedAttachmentTypesIdx.
    rewrite makeAllowedAttachmentTypesIdx_from, elem_of_empty. tauto. }
  unfold processAttachments.
  destruct (first_offender (makeAllowedAttachmentTypesIdx types) S)
    as [Hall|(pre & bad & post & -> & Hpre & Hbad)].
  - rewrite processAttachments_from_ok by done. simpl.
    eexists _, _. split; [done|]. split; [|done]. split; [|done].
    intros _. by apply Hiff.
  - rewrite processAttachments_from_stop by done. simpl.
    eexists _, _. split; [done|]. split; [|done]. split; [done|].
    intros Hall%Hiff. exfalso. apply Hbad.
    apply Forall_app in Hall as [_ Hall]. by inversion Hall.
Qed.

End MoreExecute.

(** X3, at work: the template allows nothing, the call attaches a note. *)
Lemma Execute_error_message_witness :
  Execute Sample.greeting tt [WithAttachments [Sample.note]] ∅
  = Returns
      ((Message.mk "The Frenchman says hello!" "Quelle fantastique bugette" [] "",
        Some "wrong attachment: MIME Type text/plain; charset=utf-8 is not allowed"),
       ∅)
  ∧ Message.Attachments
      (Message.mk "The Frenchman says hello!" "Quelle fantastique bugette" [] "")
    = []
  ∧ Message.ContentType
      (Message.mk "The Frenchman says hello!" "Quelle fantastique bugette" [] "")
    = "".
Proof.
  split; [reflexivity|].
  apply (Execute_error_message Sample.greeting tt
           [WithAttachments [Sample.note]] ∅ ∅ _
           "wrong attachment: MIME Type text/plain; charset=utf-8 is not allowed").
  reflexivity.
Defined.

(** X4, at work: the call allows plain text, attaches a note and asks for
    HTML. *)
Lemma Execute_success_message_witness :
  ∃ msg : Message.t,
    Execute Sample.greeting tt
      [AllowAttachments [Sample.plain]; WithAttachments [Sample.note];
       ContentType "text/html"] ∅
    = Returns ((msg, None), ∅)
    ∧ Message.ContentType msg = "text/html"
    ∧ Message.Attachments msg = [Attachment.mk "note" Sample.plain []].
Proof.
  exists (Message.mk "The Frenchman says hello!" "Quelle fantastique bugette"
            [Attachment.mk "note" Sample.plain []] "text/html").
  split; [reflexivity|].
  destruct (Execute_success_message Sample.greeting
              (@Template.mk Sim.engine (Some "The Frenchman says hello!")
                 (Some "Quelle fantastique bugette")
                 (makeAllowedAttachmentTypesIdx [Sample.plain])
                 (Some 1%positive) "text/html" [Sample.note])
              tt
              [AllowAttachments [Sample.plain]; WithAttachments [Sample.note];
               ContentType "text/html"] ∅ ∅ ∅
              (Message.mk "The Frenchman says hello!"
                 "Quelle fantastique bugette"
                 [Attachment.mk "note" Sample.plain []] "text/html"))
    as (_ & Hct & _ & Hatt & _); [reflexivity|reflexivity|].
  split; [exact Hct|exact Hatt].
Defined.

(** X5, at work: the template allows nothing; the call brings its own
    allow-list and its own attachment, and succeeds. *)
Lemma Execute_call_options_replace_witness :
  ∃ msg err,
    Execute Sample.greeting tt
      [AllowAttachments [Sample.plain]; WithAttachments [Sample.note]] ∅
    = Returns ((msg, err), ∅)
    ∧ (err = None ↔
       Forall (λ a, DetectContentType (RequestAttachment.Content a)
                    ∈ [Sample.plain]) [Sample.note])
    ∧ (err = None ->
       msg = Message.mk "The Frenchman says hello!"
               "Quelle fantastique bugette" (map stamp [Sample.note])
               "text/plain").
Proof.
  apply (Execute_call_options_replace Sample.greeting tt [Sample.plain]
           [Sample.note] ∅ "The Frenchman says hello!"
           "Quelle fantastique bugette"); reflexivity.
Defined.

(** ** NewTemplate *)

Section MoreNewTemplate.
Context `{TemplateEngine} `{Sniffer} `{TimeLayouts}.

(** The table that [NewTemplate] makes is at a location of its own. *)
Lemma fresh_table (σ : Store) : σ !! fresh (dom σ) = None.
Proof. apply not_elem_of_dom, is_fresh. Qed.

(** X6.  [NewTemplate] with the option [TemplateFuncs(fm)] makes a new
    function table, which holds [fm] merged over the built-in [timef] (an
    entry of [fm] named "timef" takes the place of the built-in), and
    leaves the tables of the templates made before as they were.  Topic and
    body go to the parser with that table.  When the parser's [Funcs]
    panics on the table, [NewTemplate] panics; a syntax error in the topic
    is returned without the body being parsed; and the template returned
    with an error lacks the programs that were not parsed. *)
Theorem NewTemplate_merges_funcs (topic body : string)
    (fm : gmap string Func) (σ : Store) :
  let table := fm ∪ {[ "timef" := funcOf timef ]} in
  ∃ l : loc,
    σ !! l = None
    ∧ let σ' : Store := <[l := table]> σ in
      let made t b := Template.mk t b ∅ (Some l) "text/plain" [] in
      NewTemplate topic body [TemplateFuncs fm] σ
      = match Parse "subject" table topic with
        | Panics => Panics
        | Returns (inr e) => Returns ((made None None, Some e), σ')
        | Returns (inl pt) =>
            match Parse "body" table body with
            | Panics => Panics
            | Returns (inr e) =>
                Returns ((made (Some pt) None, Some e), σ')
            | Returns (inl pb) =>
                Returns ((made (Some pt) (Some pb), None), σ')
            end
        end.
Proof.
  intros table. exists (fresh (dom σ)). split; [apply fresh_table|].
  unfold NewTemplate. simpl. unfold TemplateFuncs. simpl.
  set (l := fresh (dom σ)).
  assert ((if decide (fm = ∅)
           then Returns (Template.mk None None ∅ (Some l) "text/plain" [],
                         <[l := {[ "timef" := funcOf timef ]}]> σ)
           else Returns (Template.mk None None ∅ (Some l) "text/plain" [],
                         alter (fun table0 =>
                                  map_fold (fun k f acc => <[k := f]> acc)
                                    table0 fm) l
                           (<[l := {[ "timef" := funcOf timef ]}]> σ)))
          = Returns (Template.mk None None ∅ (Some l) "text/plain" [],
                     <[l := table]> σ)) as ->.
  { destruct (decide (fm = ∅)) as [->|Hne].
    - unfold table. by rewrite (left_id_L ∅ (∪)).
    - by rewrite alter_insert_eq, TemplateFuncs_fold. }
  assert (funcs_of (Template.mk None None ∅ (Some l) "text/plain" [])
            (<[l := table]> σ) = table) as ->.
  { unfold funcs_of. simpl. by rewrite lookup_insert_eq. }
  simpl. destruct (Parse "subject" table topic) as [[pt|e]|]; [|done|done].
  by destruct (Parse "body" table body) as [[pb|e]|].
Qed.

(** X7.  A template made by [NewTemplate] without options has the content
    type "text/plain" and allows no attachment: a call of [Execute] without
    options gives the rendered topic and body as plain text, and a call
    that attaches anything fails on the first attachment, whose sniffed type
    the error names. *)
Theorem NewTemplate_defaults (topic body : string) (σ : Store)
    (pt pb : Program) :
  Parse "subject" {[ "timef" := funcOf timef ]} topic = Returns (inl pt) ->
  Parse "body" {[ "timef" := funcOf timef ]} body = Returns (inl pb) ->
  ∃ T σ',
    NewTemplate topic body [] σ = Returns ((T, None), σ')
    ∧ ∀ data t b,
        Run pt data = inl t -> Run pb data = inl b ->
        Execute T data [] σ'
        = Returns ((Message.mk t b [] "text/plain", None), σ')
        ∧ ∀ a S,
            Execute T data [WithAttachments (a :: S)] σ'
            = Returns
                ((Message.mk t b [] "",
                  Some ("wrong attachment: "
                        +:+ errNotAllowed
                              (DetectContentType (RequestAttachment.Content a)))),
                 σ').
Proof.
  intros Hpt Hpb. unfold NewTemplate. simpl.
  assert (funcs_of (Template.mk None None ∅ (Some (fresh (dom σ)))
                      "text/plain" [])
            (<[fresh (dom σ) := {[ "timef" := funcOf timef ]}]> σ)
          = {[ "timef" := funcOf timef ]}) as ->.
  { unfold funcs_of. simpl. by rewrite lookup_insert_eq. }
  rewrite Hpt, Hpb. simpl. eexists _, _. split; [done|].
  intros data t b Ht Hb. unfold Execute. simpl. unfold executeTemplate.
  rewrite Ht, Hb. split; [done|]. intros a S.
  unfold processAttachments. simpl. by rewrite decide_False by set_solver.
Qed.

End MoreNewTemplate.

(** X7, at work on the simulated engine, with the sources of the package's
    test. *)
Lemma NewTemplate_defaults_witness :
  ∃ (T : Template.t) (σ' : Store),
    NewTemplate "{{.Name}} says hello!" "{{.Quote}}" [] ∅
    = Returns ((T, None), σ')
    ∧ ∀ (data : @Data Sim.engine) (t b : string),
        @Run Sim.engine "{{.Name}} says hello!" data = inl t ->
        @Run Sim.engine "{{.Quote}}" data = inl b ->
        Execute T data [] σ'
        = Returns ((Message.mk t b [] "text/plain", None), σ')
        ∧ ∀ a S,
            Execute T data [WithAttachments (a :: S)] σ'
            = Returns
                ((Message.mk t b [] "",
                  Some ("wrong attachment: "
                        +:+ errNotAllowed
                              (DetectContentType (RequestAttachment.Content a)))),
                 σ').
Proof.
  apply (@NewTemplate_defaults Sim.engine Sim.sniffer Sim.layouts
           "{{.Name}} says hello!" "{{.Quote}}" ∅
           "{{.Name}} says hello!" "{{.Quote}}"); reflexivity.
Defined.

(** ** timef: the forms with a clock *)

Lemma string_app_assoc (a b c : string) : (a +:+ b) +:+ c = a +:+ (b +:+ c).
Proof.
  induction a as [|x a IH]; [done|].
  change (String x ((a +:+ b) +:+ c) = String x (a +:+ b +:+ c)). by f_equal.
Qed.

Lemma string_app_nil_r (a : string) : a +:+ "" = a.
Proof.
  induction a as [|x a IH]; [done|].
  change (String x (a +:+ "") = String x a). by f_equal.
Qed.

(** For a number that is not negative, [%02d] of package fmt and the
    two-digit elements of a layout print the same. *)
Lemma sprintf_02d_appendInt (n : Z) : 0 <= n -> sprintf_02d n = appendInt n 2.
Proof.
  intros Hn. unfold sprintf_02d, appendInt.
  rewrite Z.abs_eq by done. destruct (n <? 0) eqn:Hneg; [lia|]. done.
Qed.

(** X8.  The two forms of [timef] with a clock are its two date forms, a
    space, and one and the same clock: hour, minute and second, each with
    two digits at least. *)
Theorem timef_time_extends_date `{TimeLayouts} (t : Time.t) :
  0 <= Time.Hour t -> 0 <= Time.Minute t -> 0 <= Time.Second t ->
  let clock :=
    sprintf_02d (Time.Hour t) +:+ ":" +:+ sprintf_02d (Time.Minute t) +:+ ":"
    +:+ sprintf_02d (Time.Second t) in
  timef t "time-short-de" = timef t "date-short-de" +:+ " " +:+ clock
  ∧ timef t "time-long-de" = timef t "date-long-de" +:+ " " +:+ clock.
Proof.
  intros Hh Hm Hs. simpl. split.
  - rewrite !sprintf_02d_appendInt by done.
    change (timef t "time-short-de")
      with (format_chunk t stdZeroDay +:+ "." +:+ format_chunk t stdZeroMonth
            +:+ "." +:+ format_chunk t stdLongYear +:+ " "
            +:+ format_chunk t stdHour +:+ ":" +:+ format_chunk t stdZeroMinute
            +:+ ":" +:+ format_chunk t stdZeroSecond +:+ "").
    change (timef t "date-short-de")
      with (format_chunk t stdZeroDay +:+ "." +:+ format_chunk t stdZeroMonth
            +:+ "." +:+ format_chunk t stdLongYear +:+ "").
    simpl format_chunk. rewrite !string_app_assoc, !string_app_nil_r.
    simpl. done.
  - done.
Qed.

(** X8, at work: a quarter past two in the afternoon. *)
Lemma timef_time_extends_date_witness :
  timef (Time.mk 2021 May 3 14 15 0 0 "CEST" 7200) "time-short-de"
  = "03.05.2021 14:15:00"
  ∧ timef (Time.mk 2021 May 3 14 15 0 0 "CEST" 7200) "time-long-de"
    = "Mo, 03. Mai 2021 14:15:00".
Proof.
  destruct (timef_time_extends_date (Time.mk 2021 May 3 14 15 0 0 "CEST" 7200))
    as [Hshort Hlong]; [simpl; lia..|].
  split; [exact Hshort|exact Hlong].
Defined.

(** ** Send: the errors it returns and the message it hands over *)

Section MoreTransmitter.
Context {World : Type} `{OS World} `{Transport World}.

(** X9.  What [Send] returns tells where it stopped.  An error is the one
    of an empty sender, of an empty list of recipients, of a missing
    config (in these three cases nothing was touched), of a temporary
    directory that could not be made, or of the removal of that directory.
    And [nil] says that the directory was made and removed: the errors of
    writing an attachment, of a missing dialer and of the transport are
    never what [Send] returns. *)
Theorem Send_result_sources (tx : Tx.t) (from : string) (to : To)
    (message : Message.t) (options : list SendOption) (w w' : World)
    (result : option error) :
  Send tx from to message options w = (Returns result, w') ->
  (result = Some "from cannot be empty" ∧ from = "" ∧ w' = w)
  ∨ (result = Some "at least one 'to' email-address must be given"
     ∧ to = [] ∧ w' = w)
  ∨ (result = Some "transmitter is not configured, yet"
     ∧ Tx.cfg tx = None ∧ w' = w)
  ∨ (∃ cfg e,
       Tx.cfg tx = Some cfg
       ∧ TempDir (TxConfig.TmpDir cfg) "f9a-mail" w = (inr e, w')
       ∧ result = Some ("couldn't create tmp-dir for attachments: " +:+ e))
  ∨ (∃ cfg tempDirName w1 w2,
       Tx.cfg tx = Some cfg
       ∧ TempDir (TxConfig.TmpDir cfg) "f9a-mail" w = (inl tempDirName, w1)
       ∧ RemoveAll tempDirName w2 = (result, w')).
Proof.
  unfold Send. destruct (decide (from = "")) as [->|Hfrom].
  { intros [= <- <-]. by left. }
  destruct to as [|to0 more].
  { intros [= <- <-]. right. by left. }
  destruct (Tx.cfg tx) as [cfg|] eqn:Hcfg.
  2:{ intros [= <- <-]. right. right. by left. }
  destruct (TempDir (TxConfig.TmpDir cfg) "f9a-mail" w) as [[d|e] w1] eqn:Htmp.
  2:{ intros [= <- <-]. right. right. right. left. by exists cfg, e. }
  destruct (Send_body _ _ _ _ _) as [exit w2].
  destruct (RemoveAll d w2) as [rerr w3] eqn:Hrm.
  destruct exit as [about|]; [|done]. intros [= <- <-].
  right. right. right. right. by exists cfg, d, w1, w2.
Qed.

(** What the loop over the attachments leaves of the message: headers and
    body as they were, and one more attached path for each attachment. *)
Lemma Send_attachments_built (tempDirName : string)
    (attachments : list Attachment.t) (m m' : GoMessage.t) (w w' : World) :
  Send_attachments tempDirName attachments m w = (Returns (inl m'), w') ->
  GoMessage.header m' = GoMessage.header m
  ∧ GoMessage.parts m' = GoMessage.parts m
  ∧ GoMessage.attachments m'
    = GoMessage.attachments m
      ++ map (attachment_path (World:=World) tempDirName) attachments.
Proof.
  revert m w. induction attachments as [|a rest IH]; intros m w; simpl.
  - intros [= <- <-]. by rewrite app_nil_r.
  - unfold writeFile, attachment_path, attachment_ext.
    destruct (ExtensionsByType (Attachment.Kind a)) as [ee [e|]]; [done|].
    destruct ee as [[|e0 ee]|]; [done| |].
    + destruct (WriteFile _ _ w) as [[e|] w1]; [done|].
      intros (-> & -> & ->)%IH. simpl. by rewrite <- app_assoc.
    + destruct (WriteFile _ _ w) as [[e|] w1]; [done|].
      intros (-> & -> & ->)%IH. simpl. by rewrite <- app_assoc.
Qed.

(** X10.  When every attachment is written, the message carries one
    attached path for each of them, in their order: the temporary
    directory joined with the name of the attachment followed by the first
    extension known for its kind, or by the word "unknown" (without a dot)
    when none is known. *)
Theorem Send_attachments_paths (tempDirName : string)
    (attachments : list Attachment.t) (m m' : GoMessage.t) (w w' : World) :
  Send_attachments tempDirName attachments m w = (Returns (inl m'), w') ->
  GoMessage.attachments m'
  = GoMessage.attachments m
    ++ map (λ a, filepath_Join tempDirName
                   (Attachment.Name a
                    +:+ match ExtensionsByType (Attachment.Kind a) with
                        | (Some (e0 :: _), _) => e0
                        | _ => "unknown"
                        end)) attachments
  ∧ length (GoMessage.attachments m')
    = (length (GoMessage.attachments m) + length attachments)%nat.
Proof.
  intros (_ & _ & ->)%Send_attachments_built. split; [done|].
  by rewrite length_app, length_map.
Qed.

(** X11.  The attachments are handled in their order, and the first one
    that fails ends the loop: the loop over [pre ++ post] is the loop over
    [pre], followed by the loop over [post] only when that ran to its end. *)
Theorem Send_attachments_app (tempDirName : string)
    (pre post : list Attachment.t) (m : GoMessage.t) (w : World) :
  Send_attachments tempDirName (pre ++ post) m w
  = match Send_attachments tempDirName pre m w with
    | (Returns (inl m'), w') => Send_attachments tempDirName post m' w'
    | stopped => stopped
    end.
Proof.
  revert m w. induction pre as [|a pre IH]; intros m w; simpl.
  - by destruct (Send_attachments tempDirName post m w) as [[[?|?]|] ?].
  - destruct (writeFile tempDirName a w) as [[[filename [e|]]|] w1];
      first [done|apply IH].
Qed.

(** X12.  The message that [Send] hands to the transport names the sender
    in "From", the first recipient in "To" and the topic in "Subject", and
    has the body of the message with its content type.  The recipients
    after the first are in "Bcc", or in "Cc" when the option [AsCc] was
    given; with one recipient there is neither header. *)
Theorem Send_headers (tx : Tx.t) (dialer : Dialer.t) (from to0 : string)
    (more : list string) (message : Message.t) (options : list SendOption)
    (tempDirName : string) (m : GoMessage.t) (w1 w2 : World) :
  Forall (λ o, o = AsCc) options ->
  Tx.dialer tx = Some dialer ->
  Send_attachments tempDirName (Message.Attachments message)
    (Send_compose from to0 more message
       (fold_left (fun o opt => opt o) options (sendOptions.mk false))) w1
  = (Returns (inl m), w2) ->
  Send_body tx tempDirName message
    (Send_compose from to0 more message
       (fold_left (fun o opt => opt o) options (sendOptions.mk false))) w1
  = (Returns (fst (DialAndSend dialer m w2)), snd (DialAndSend dialer m w2))
  ∧ GoMessage.header m !! "From" = Some [from]
  ∧ GoMessage.header m !! "To" = Some [to0]
  ∧ GoMessage.header m !! "Subject" = Some [Message.Topic message]
  ∧ GoMessage.parts m = [(Message.ContentType message, Message.Body message)]
  ∧ GoMessage.header m !! "Cc"
    = (if decide (more = [] ∨ options = []) then None else Some more)
  ∧ GoMessage.header m !! "Bcc"
    = (if decide (more ≠ [] ∧ options = []) then Some more else None).
Proof.
  intros Hopts Hd Hatt. split.
  { unfold Send_body. rewrite Hatt, Hd.
    by destruct (DialAndSend dialer m w2). }
  apply Send_attachments_built in Hatt as (-> & -> & _).
  assert (sendOptions.asCc
            (fold_left (fun o opt => opt o) options (sendOptions.mk false))
          = bool_decide (options ≠ [])) as HasCc.
  { destruct options as [|o options]; [done|].
    rewrite bool_decide_eq_true_2 by done.
    assert (∀ o0, sendOptions.asCc o0 = true ->
                  sendOptions.asCc
                    (fold_left (fun o opt => opt o) options o0) = true) as Hkeep.
    { apply Forall_cons in Hopts as [_ Hrest].
      induction Hrest as [|o' options' -> _ IH]; intros o0 Ho0; [done|].
      simpl. by apply IH. }
    apply Forall_cons in Hopts as [-> _]. simpl. by apply Hkeep. }
  unfold Send_compose. rewrite HasCc.
  destruct more as [|to1 more]; [simpl; split_and!; by simplify_map_eq|].
  rewrite decide_True by (simpl; lia).
  destruct options as [|o options]; simpl.
  - split_and!; by simplify_map_eq.
  - split_and!; by simplify_map_eq.
Qed.

End MoreTransmitter.

(** X9, at work: the server cannot be reached and [Send] returns [nil];
    of the five sources, it is the removal that gave the result. *)
Lemma Send_result_sources_witness :
  let tx := fst (Dial Sim.test_config) in
  let w := Sim.unreachable in
  (None = Some "from cannot be empty" ∧ "test@example.de" = "" ∧ w = w)
  ∨ (None = Some "at least one 'to' email-address must be given"
     ∧ ["ava@example.de"] = [] ∧ w = w)
  ∨ (None = Some "transmitter is not configured, yet"
     ∧ Tx.cfg tx = None ∧ w = w)
  ∨ (∃ cfg e,
       Tx.cfg tx = Some cfg
       ∧ TempDir (TxConfig.TmpDir cfg) "f9a-mail" w = (inr e, w)
       ∧ None = Some ("couldn't create tmp-dir for attachments: " +:+ e))
  ∨ (∃ cfg tempDirName w1 w2,
       Tx.cfg tx = Some cfg
       ∧ TempDir (TxConfig.TmpDir cfg) "f9a-mail" w = (inl tempDirName, w1)
       ∧ RemoveAll tempDirName w2 = (None, w)).
Proof.
  apply (Send_result_sources (fst (Dial Sim.test_config)) "test@example.de"
           ["ava@example.de"] Sim.test_message [] Sim.unreachable
           Sim.unreachable None).
  reflexivity.
Defined.

(** X10, at work: a note of plain text and a blob of no known kind. *)
Lemma Send_attachments_paths_witness :
  ∃ (m' : GoMessage.t) (w' : Sim.World),
    Send_attachments "/tmp/f9a-mail0"
      [Attachment.mk "note" "text/plain" [];
       Attachment.mk "blob" "application/x-blob" []]
      GoMessage.NewMessage Sim.unreachable
    = (Returns (inl m'), w')
    ∧ GoMessage.attachments m'
      = ["/tmp/f9a-mail0/note.txt"; "/tmp/f9a-mail0/blobunknown"].
Proof.
  eexists _, _. split; [reflexivity|].
  refine (proj1 (Send_attachments_paths (World:=Sim.World) "/tmp/f9a-mail0"
                   [Attachment.mk "note" "text/plain" [];
                    Attachment.mk "blob" "application/x-blob" []]
                   GoMessage.NewMessage _ Sim.unreachable _ _)).
  reflexivity.
Defined.

(** X12, at work: three recipients and the option [AsCc]. *)
Lemma Send_headers_witness :
  ∃ m : GoMessage.t,
    GoMessage.header m !! "To" = Some ["ava@example.de"]
    ∧ GoMessage.header m !! "Cc" = Some ["bob@example.de"; "eve@example.de"]
    ∧ GoMessage.header m !! "Bcc" = None
    ∧ GoMessage.attachments m = ["/tmp/f9a-mail0/note.txt"].
Proof.
  destruct (Send_attachments (World:=Sim.World) "/tmp/f9a-mail0"
              (Message.Attachments Sim.test_message)
              (Send_compose "test@example.de" "ava@example.de"
                 ["bob@example.de"; "eve@example.de"] Sim.test_message
                 (fold_left (fun o opt => opt o) [AsCc] (sendOptions.mk false)))
              Sim.unreachable) as [[[m|e]|] w2] eqn:Hatt; try discriminate Hatt.
  exists m.
  destruct (Send_headers (fst (Dial Sim.test_config))
              (dialer_of Sim.test_config) "test@example.de" "ava@example.de"
              ["bob@example.de"; "eve@example.de"] Sim.test_message [AsCc]
              "/tmp/f9a-mail0" m Sim.unreachable w2)
    as (_ & _ & HTo & _ & _ & HCc & HBcc);
    [by repeat constructor|reflexivity|exact Hatt|].
  split; [exact HTo|]. split; [exact HCc|]. split; [exact HBcc|].
  by injection Hatt as <- _.
Defined.

(** ** Configuring a transmitter *)

(** X13.  [UpdateTxConfig] validates nothing and keeps nothing of what
    the transmitter held.  Whatever the transmitter [tx] holds (nothing,
    or another config and its dialer) and whatever the config [cfg] (one
    that [Dial] refuses as well), after [UpdateTxConfig(cfg)] the
    transmitter holds [cfg] and the dialer made from it and nothing of
    before: two transmitters are alike after the same update, and [Send]
    goes all the way to the transport with the dialer of [cfg]. *)
Theorem UpdateTxConfig_skips_validation {World : Type} `{OS World}
    `{Transport World} (tx other : Tx.t) (cfg : TxConfig.t)
    (from to0 : string) (more : list string) (message : Message.t)
    (options : list SendOption) (w w1 w2 : World) (tempDirName : string)
    (m : GoMessage.t) :
  from ≠ "" ->
  TempDir (TxConfig.TmpDir cfg) "f9a-mail" w = (inl tempDirName, w1) ->
  Send_attachments tempDirName (Message.Attachments message)
    (Send_compose from to0 more message
       (fold_left (fun o opt => opt o) options (sendOptions.mk false))) w1
  = (Returns (inl m), w2) ->
  let dialed :=
    DialAndSend
      (NewDialer (TxConfig.Host cfg) (TxConfig.Port cfg) (TxConfig.User cfg)
         (TxConfig.Password cfg)) m w2 in
  Tx.cfg (UpdateTxConfig cfg tx) = Some cfg
  ∧ Tx.dialer (UpdateTxConfig cfg tx)
    = Some (NewDialer (TxConfig.Host cfg) (TxConfig.Port cfg)
              (TxConfig.User cfg) (TxConfig.Password cfg))
  ∧ UpdateTxConfig cfg tx = UpdateTxConfig cfg other
  ∧ Send (UpdateTxConfig cfg tx) from (to0 :: more) message options w
    = (Returns (fst (RemoveAll tempDirName (snd dialed))),
       snd (RemoveAll tempDirName (snd dialed))).
Proof.
  intros Hfrom Htmp Hatt. simpl. split_and!; try done.
  destruct (DialAndSend _ m w2) as [err w3] eqn:Hdial.
  by eapply Send_drops_transport_error.
Qed.

(** X13, at work: the transmitter dialed with the config of the package's
    test; [Dial] refuses the port 70000, [UpdateTxConfig] takes a config
    with it, and the mail goes to the other server through a dialer on
    that port. *)
Lemma UpdateTxConfig_skips_validation_witness :
  let cfg := TxConfig.mk "next@example.de" "yyy" "smtp2.example.de" 70000 "/var/tmp" in
  let w := Sim.mk [] [] [] None None in
  snd (Dial cfg) ≠ None
  ∧ ∃ m,
      Sim.sent
        (snd (Send (UpdateTxConfig cfg (fst (Dial Sim.test_config)))
                "test@example.de" ["ava@example.de"] Sim.test_message [] w))
      = [(NewDialer "smtp2.example.de" 70000 "next@example.de" "yyy", m)].
Proof.
  cbv zeta. split; [by vm_compute|].
  eexists.
  rewrite (proj2 (proj2 (proj2
             (UpdateTxConfig_skips_validation (fst (Dial Sim.test_config)) New
                (TxConfig.mk "next@example.de" "yyy" "smtp2.example.de"
                   70000 "/var/tmp")
                "test@example.de" "ava@example.de" [] Sim.test_message []
                (Sim.mk [] [] [] None None) _ _ "/var/tmp/f9a-mail0" _
                ltac:(done) eq_refl eq_refl)))).
  reflexivity.
Defined.

(** X14.  Two calls of [UpdateTxConfig] that run at the same time each do
    their two stores in order, in any interleaving.  At the end the
    transmitter holds the config of one of the calls and the dialer of one
    of the calls, and there is an interleaving after which it holds the
    config of the second call beside the dialer of the first. *)
Theorem UpdateTxConfig_twice_concurrently (cfg1 cfg2 : TxConfig.t) (tx : Tx.t) :
  (∀ schedule,
     interleaving (UpdateTxConfig_stores cfg1) (UpdateTxConfig_stores cfg2)
       schedule ->
     (Tx.cfg (do_stores schedule tx) = Some cfg1
      ∨ Tx.cfg (do_stores schedule tx) = Some cfg2)
     ∧ (Tx.dialer (do_stores schedule tx) = Some (dialer_of cfg1)
        ∨ Tx.dialer (do_stores schedule tx) = Some (dialer_of cfg2)))
  ∧ ∃ schedule,
      interleaving (UpdateTxConfig_stores cfg1) (UpdateTxConfig_stores cfg2)
        schedule
      ∧ do_stores schedule tx = Tx.mk (Some (dialer_of cfg1)) (Some cfg2).
Proof.
  split.
  - intros schedule Hs. unfold UpdateTxConfig_stores in Hs.
    repeat match goal with
           | Hi : interleaving _ _ _ |- _ => inversion Hi; clear Hi; subst
           end; simpl; auto.
  - exists [StoreCfg cfg1; StoreCfg cfg2; StoreDialer (dialer_of cfg2);
            StoreDialer (dialer_of cfg1)].
    split; [|done]. unfold UpdateTxConfig_stores.
    apply interleaving_left, interleaving_right, interleaving_right,
      interleaving_left, interleaving_nil.
Qed.

(** ** The recorder *)

(** X15.  Once the log holds two mails that differ, [Seen] answers [false]
    for every mail, those two included. *)
Theorem Seen_two_different (r : MemRecorder.t) (x y m : Mail.t) :
  x ∈ MemRecorder.Mails r -> y ∈ MemRecorder.Mails r -> x ≠ y ->
  Seen r m = Returns (false, None).
Proof.
  intros Hx Hy Hxy.
  destruct (Seen_cases r m) as [(_ & Hall & _)|[_ Hret]]; [|done].
  rewrite Forall_forall in Hall. exfalso. apply Hxy.
  by rewrite (Hall x Hx), (Hall y Hy).
Qed.

(** X15, at work: two mails to two recipients are sent, and neither is
    seen. *)
Lemma Seen_two_different_witness :
  let first := Mail.mk "test@example.de" ["ava@example.de"] Sim.test_message in
  let second := Mail.mk "test@example.de" ["bob@example.de"] Sim.test_message in
  let r :=
    snd (MemRecorder_Send
           (snd (MemRecorder_Send (MemRecorder.mk [] None) "test@example.de"
                   ["ava@example.de"] Sim.test_message []))
           "test@example.de" ["bob@example.de"] Sim.test_message []) in
  Seen r first = Returns (false, None) ∧ Seen r second = Returns (false, None).
Proof.
  simpl. split.
  - apply (Seen_two_different _
             (Mail.mk "test@example.de" ["ava@example.de"] Sim.test_message)
             (Mail.mk "test@example.de" ["bob@example.de"] Sim.test_message));
      [apply list_elem_of_here
      |apply list_elem_of_further, list_elem_of_here
      |discriminate].
  - reflexivity.
Defined.

(** ** Validation: what the error holds *)

(** The fields that the error of [ValidateStruct] has an entry for. *)
Lemma ValidateStruct_from_is_Some (fields : list oz.FieldRules)
    (errs : oz.Errors) (k : string) :
  is_Some (oz.ValidateStruct_from fields errs !! k)
  ↔ is_Some (errs !! k)
    ∨ Exists (λ f, oz.field_name f = k
                   ∧ oz.Validate (oz.field_value f) (oz.field_rules f) ≠ None)
        fields.
Proof.
  unfold oz.Errors in *.
  revert errs. induction fields as [|f rest IH]; intros errs; simpl.
  - rewrite Exists_nil. tauto.
  - rewrite Exists_cons.
    destruct (oz.Validate (oz.field_value f) (oz.field_rules f)) as [e|].
    + rewrite IH. unfold oz.Errors.
      destruct (decide (oz.field_name f = k)) as [<-|Hne].
      * rewrite lookup_insert_eq. split; [|eauto]. intros _. right. left. done.
      * rewrite lookup_insert_ne by done. tauto.
    + rewrite IH. tauto.
Qed.

(** X16.  When [Validate] fails, its error has an entry for each field
    that failed and for no other: "user", "password" and "host" when they
    are empty, and "port" when the port is outside 1..49151.  The check
    does not stop at the first field that fails. *)
Theorem TxConfig_Validate_reports_all (cfg : TxConfig.t) (errs : oz.Errors) :
  TxConfig_Validate cfg = Some errs ->
  (is_Some (errs !! "user") ↔ TxConfig.User cfg = "")
  ∧ (is_Some (errs !! "password") ↔ TxConfig.Password cfg = "")
  ∧ (is_Some (errs !! "host") ↔ TxConfig.Host cfg = "")
  ∧ (is_Some (errs !! "port") ↔ ¬ (1 <= TxConfig.Port cfg <= 49151))
  ∧ ∀ k, is_Some (errs !! k) -> k ∈ ["user"; "password"; "host"; "port"].
Proof.
  unfold TxConfig_Validate, oz.ValidateStruct.
  case_decide; [done|]. intros Heq. apply (inj Some) in Heq.
  unfold oz.Errors in *.
  assert (∀ k, is_Some (errs !! k) ↔
            (k = "user" ∧ TxConfig.User cfg = "")
            ∨ (k = "password" ∧ TxConfig.Password cfg = "")
            ∨ (k = "host" ∧ TxConfig.Host cfg = "")
            ∨ (k = "port" ∧ ¬ (1 <= TxConfig.Port cfg <= 49151))) as Hk.
  { intros k. rewrite <- Heq, ValidateStruct_from_is_Some. unfold oz.Errors.
    rewrite lookup_empty, !Exists_cons, Exists_nil.
    cbn [oz.field_value oz.field_rules oz.field_name].
    rewrite !Required_string, port_rules.
    assert (∀ s : string, ¬ s ≠ "" ↔ s = "") as Hnn.
    { intros s. split; [apply dec_stable|]. intros -> Hne. by apply Hne. }
    rewrite !Hnn. split.
    - intros [[? [=]]|Hex]. intuition congruence.
    - intuition congruence. }
  split_and!.
  - rewrite Hk. intuition congruence.
  - rewrite Hk. intuition congruence.
  - rewrite Hk. intuition congruence.
  - rewrite Hk. intuition congruence.
  - intros k [H1|[H1|[H1|H1]]]%Hk; destruct H1 as [-> _];
      repeat first [apply list_elem_of_here|apply list_elem_of_further].
Qed.

(** X16, at work: no user, and a port beyond the range. *)
Lemma TxConfig_Validate_reports_all_witness :
  ∃ errs : oz.Errors,
    TxConfig_Validate (TxConfig.mk "" "xxx" "smtp.example.de" 70000 "")
    = Some errs
    ∧ is_Some (errs !! "user") ∧ is_Some (errs !! "port")
    ∧ ¬ is_Some (errs !! "password") ∧ ¬ is_Some (errs !! "host").
Proof.
  destruct (TxConfig_Validate (TxConfig.mk "" "xxx" "smtp.example.de" 70000 ""))
    as [errs|] eqn:HV; [|by vm_compute in HV].
  exists errs. split; [done|].
  destruct (TxConfig_Validate_reports_all _ errs HV)
    as (Hu & Hp & Hh & Hport & _). simpl in *.
  split_and!.
  - by apply Hu.
  - apply Hport. lia.
  - by intros ?%Hp.
  - by intros ?%Hh.
Defined.

(** ** The recorder: sending again *)

(** X17.  After a [Send], [Seen] of the mail just sent answers [true]
    exactly when every mail recorded before is that same mail. *)
Theorem Seen_after_Send (r : MemRecorder.t) (from : string) (to : To)
    (message : Message.t) (options : list SendOption) :
  Seen (snd (MemRecorder_Send r from to message options))
    (Mail.mk from to message)
  = Returns (true, None)
  ↔ Forall (λ x, x = Mail.mk from to message) (MemRecorder.Mails r).
Proof.
  destruct (Seen_cases (snd (MemRecorder_Send r from to message options))
              (Mail.mk from to message)) as [(_ & Hall & ->)|[Hnot ->]];
    simpl in *.
  - split; [|done]. intros _. by apply Forall_app in Hall as [Hall _].
  - split; [done|]. intros Hall. exfalso. apply Hnot. split.
    + by destruct (MemRecorder.Mails r).
    + apply Forall_app. split; [done|]. by constructor.
Qed.

(** ** Execute and the function table *)

Section ExecuteFuncs.
Context `{TemplateEngine} `{Sniffer}.

(** Options that assign a field give the same template in every store. *)
Lemma applyOptions_assigns_field_any_store (opts : list Option)
    (tpl : Template.t) :
  Forall assigns_field opts ->
  ∃ tpl', ∀ σ, applyOptions opts tpl σ = Returns (tpl', σ).
Proof.
  intros Hall. revert tpl.
  induction Hall as [|opt rest Hopt _ IH]; intros tpl; simpl.
  - by exists tpl.
  - destruct Hopt; simpl;
      match goal with
      | |- context [applyOptions rest ?t _] => destruct (IH t) as [tpl' Htpl']
      end; exists tpl'; intros σ; apply Htpl'.
Qed.

(** X18.  The option [TemplateFuncs] has no effect on the message of the
    call it is given to: the programs were parsed when the template was
    made, and [Execute] renders them as they are.  With or without the
    option the call returns the same message and the same error; only the
    store differs. *)
Theorem Execute_ignores_TemplateFuncs (T : Template.t) (data : Data)
    (fm : gmap string Func) (opts : list Option) (σ : Store) :
  Forall assigns_field opts ->
  Template.funcs T ≠ None ->
  ∃ σ',
    Execute T data (TemplateFuncs fm :: opts) σ
    = match Execute T data opts σ with
      | Returns (result, _) => Returns (result, σ')
      | Panics => Panics
      end.
Proof.
  intros Hall Hfuncs.
  destruct (applyOptions_assigns_field_any_store opts T Hall) as [T' HT'].
  assert (∃ σ', TemplateFuncs fm T σ = Returns (T, σ')) as [σ' Hfm].
  { unfold TemplateFuncs. destruct (decide (fm = ∅)); [by eexists|].
    destruct (Template.funcs T); [by eexists|done]. }
  exists σ'. unfold Execute. simpl. rewrite Hfm, !HT'.
  destruct (executeTemplate (Template.topic T') data) as [[t [e|]]|]; try done.
  destruct (executeTemplate (Template.body T') data) as [[b [e|]]|]; try done.
  by destruct (processAttachments _ _) as [aa [e|]].
Qed.

End ExecuteFuncs.

(** X18, at work: the call of the failing run of [TemplateFuncs] returns
    the message that the call without the option returns. *)
Lemma Execute_ignores_TemplateFuncs_witness :
  ∃ σ' : Store,
    Execute Sample.greeting tt [TemplateFuncs {[ "shout" := Sim.shout ]}]
      {[ 1%positive := ∅ ]}
    = Returns
        ((Message.mk "The Frenchman says hello!" "Quelle fantastique bugette"
            [] "text/plain", None), σ').
Proof.
  destruct (Execute_ignores_TemplateFuncs Sample.greeting tt
              {[ "shout" := Sim.shout ]} [] {[ 1%positive := ∅ ]})
    as [σ' Hσ']; [constructor|done|].
  exists σ'. exact Hσ'.
Defined.
